(** * Unsupervised node classification: the evaluation protocol

    A shallow embedding of
    [cognitive_graph/tasks/unsupervised_node_classification.py]:
    the label-matrix builder of [__init__], the embedding alignment of
    [train], the split/evaluation driver [_evaluate] and the top-k rule of
    [TopKRanker.predict].

    Conventions.
    - A 2-D array (numpy array, scipy sparse matrix) is the list of its rows.
    - Python integers are [Z]; positions produced by [enumerate], [range] and
      [argsort] are [nat].
    - The float computation whose rounding is observable through [int(...)],
      [train_percent * self.num_nodes], is carried out in IEEE-754 binary64
      with the Standard Library's [SpecFloat].  Probabilities and scores are
      only compared, summed and averaged; they are modelled by the rationals
      they denote ([Q]), so the rounding of the final average is not modelled.
    - Exceptions are values of [exn]; code that may raise returns a [result].
    - numpy, scikit-learn, networkx and the embedding model are external
      collaborators.  They enter as operational type classes ([Numpy],
      [Estimator], [RandomState], [Metric]) whose documented contracts are stated
      separately as propositions and assumed explicitly by the theorems that
      need them. *)

From Stdlib Require Import ZArith QArith Qabs Qround Lia.
From Stdlib Require Import Floats.SpecFloat.
From stdpp Require Import base tactics option list sorting strings gmap.

Open Scope Z_scope.

(* ===================================================================== *)
(** * Part I: definitions                                                *)
(* ===================================================================== *)

(** ** Exceptions and the error monad *)

Inductive exn : Type :=
  | AssertionError   (* the [assert] of [TopKRanker.predict] *)
  | IndexError       (* an index out of bounds *)
  | ValueError       (* inconsistent shapes, [int(nan)] *)
  | OverflowError    (* [int(inf)], an [int] too large for a float *)
  | ZeroDivisionError
  | EstimatorError.  (* anything raised inside the wrapped estimator *)

Inductive result (A : Type) : Type :=
  | Ok (a : A)
  | Raise (e : exn).
Arguments Ok {A} a.
Arguments Raise {A} e.

Definition rbind {A B} (f : A → result B) (m : result A) : result B :=
  match m with
  | Ok a => f a
  | Raise e => Raise e
  end.

#[global] Instance result_ret : MRet result := λ A, @Ok A.
#[global] Instance result_bind : MBind result := λ A B, @rbind A B.

Definition option_or_raise {A} (e : exn) (o : option A) : result A :=
  match o with
  | Some a => Ok a
  | None => Raise e
  end.

(** [for x in l: acc = f(acc, x)], stopping at the first exception. *)
Fixpoint foldM {A S} (f : S → A → result S) (s : S) (l : list A) : result S :=
  match l with
  | [] => Ok s
  | x :: l' => s' ← f s x; foldM f s' l'
  end.

(** [[f(x) for x in l]], stopping at the first exception. *)
Fixpoint mapM_r {A B} (f : A → result B) (l : list A) : result (list B) :=
  match l with
  | [] => Ok []
  | x :: l' => y ← f x; ys ← mapM_r f l'; Ok (y :: ys)
  end.

(** ** Python and numpy indexing *)

Abbreviation matrix A := (list (list A)) (only parsing).

(** An index [i] into a sequence of length [n]: negative indices count from
    the end, anything outside [-n, n) is an [IndexError]. *)
Definition normalize_index (n : nat) (i : Z) : result nat :=
  if (0 <=? i) && (i <? Z.of_nat n) then Ok (Z.to_nat i)
  else if (- Z.of_nat n <=? i) && (i <? 0) then Ok (Z.to_nat (i + Z.of_nat n))
  else Raise IndexError.

(** [l[i]] *)
Definition getitem {A} (l : list A) (i : Z) : result A :=
  j ← normalize_index (length l) i;
  option_or_raise IndexError (l !! j).

(** [l[idx]] for an array [idx] of positions (numpy fancy indexing,
    [_safe_indexing] of scikit-learn). *)
Definition take_indices {A} (l : list A) (idx : list nat) : result (list A) :=
  mapM_r (λ i, getitem l (Z.of_nat i)) idx.

(** The lower bound of the slice [l[start:]] for a sequence of length [n]. *)
Definition slice_bound (n : nat) (start : Z) : nat :=
  if start <? 0 then Z.to_nat (Z.max (start + Z.of_nat n) 0)
  else Z.to_nat (Z.min start (Z.of_nat n)).

(** [l[start:]] *)
Definition slice_from {A} (start : Z) (l : list A) : list A :=
  drop (slice_bound (length l) start) l.

(** [l[:stop]] *)
Definition slice_to {A} (stop : Z) (l : list A) : list A :=
  take (slice_bound (length l) stop) l.

(** [np.zeros(shape)] and [sp.lil_matrix(shape)] *)
Definition zeros {A} (zero : A) (rows cols : nat) : matrix A :=
  replicate rows (replicate cols zero).

(** [sp.lil_matrix(probs.shape)]: the shape of a list of rows is read off
    the rows themselves. *)
Definition zeros_like {A B} (zero : B) (M : matrix A) : matrix B :=
  (λ row, replicate (length row) zero) <$> M.

(** [M[i, j] = v] *)
Definition setitem2 {A} (M : matrix A) (i : Z) (j : Z) (v : A) : result (matrix A) :=
  i' ← normalize_index (length M) i;
  row ← option_or_raise IndexError (M !! i');
  j' ← normalize_index (length row) j;
  Ok (<[i' := <[j' := v]> row]> M).

(** [enumerate(l)] *)
Definition enumerate {A} (l : list A) : list (nat * A) :=
  zip (seq 0 (length l)) l.

(** ** Sorting

    One insertion sort serves the three sorts of the program: the
    reference [argsort], [sorted(all_results.keys())] and the round-trip
    check of the shuffle. *)

Section Sort.
Context {A : Type} (leb : A → A → bool).

Fixpoint insert_sorted (x : A) (l : list A) : list A :=
  match l with
  | [] => [x]
  | y :: l' => if leb x y then x :: l else y :: insert_sorted x l'
  end.

Definition isort (l : list A) : list A :=
  foldr insert_sorted [] l.
End Sort.

(** ** External collaborators *)

(** numpy: [a.argsort()] returns the positions of [a] in ascending order of
    value. *)
Class Numpy := {
  argsort : list Q → list nat
}.

(** Contract of [argsort]: a permutation of [range(len(a))] along which the
    values ascend.  Nothing is assumed about the order of equal values. *)
Definition ascending_along (a : list Q) (idx : list nat) : Prop :=
  ∀ i j x y u v, (i ≤ j)%nat →
    idx !! i = Some x → idx !! j = Some y →
    a !! x = Some u → a !! y = Some v → (u <= v)%Q.

Class NumpySpec `{Numpy} : Prop := {
  argsort_perm : ∀ a, argsort a ≡ₚ seq 0 (length a);
  argsort_ascending : ∀ a, ascending_along a (argsort a)
}.

(** scikit-learn: [OneVsRestClassifier(LogisticRegression())].  [fit]
    returns the fitted estimator; [classes_] and [predict_proba] read it.
    Either call may fail inside the library ([None]); the caller sees that
    as an [EstimatorError]. *)
Class Estimator := {
  model : Type;
  fit : matrix Q → matrix Z → option model;
  classes_ : model → list Z;
  predict_proba : model → matrix Q → option (matrix Q)
}.

(** [np.arange(n)] *)
Definition arange (n : nat) : list Z := Z.of_nat <$> seq 0 n.

(** Contract of a fitted one-vs-rest estimator: its classes are the column
    numbers [0 .. n_classes-1] and [predict_proba] returns one row per
    sample and one column per class. *)
Definition fitted `{Estimator} (m : model) : Prop :=
  classes_ m = arange (length (classes_ m)) ∧
  ∀ X P, predict_proba m X = Some P →
    length P = length X ∧ Forall (λ row, length row = length (classes_ m)) P.

Class EstimatorSpec `{Estimator} : Prop := {
  fit_fitted : ∀ X y m, fit X y = Some m → fitted m
}.

(** ** [TopKRanker.predict] *)

Section TopKRanker.
Context `{Numpy} `{Estimator}.

(** The body of the loop over [enumerate(top_k_list)]. *)
Definition predict_row (self : model) (probs : matrix Q)
    (all_labels : matrix Z) (ik : nat * Z) : result (matrix Z) :=
  let '(i, k) := ik in
  probs_ ← getitem probs (Z.of_nat i);
  labels ← mapM_r (λ j, getitem (classes_ self) (Z.of_nat j))
                  (slice_from (- k) (argsort probs_));
  foldM (λ all_labels label, setitem2 all_labels (Z.of_nat i) label 1)
        all_labels labels.

Definition predict (self : model) (X : matrix Q) (top_k_list : list Z)
    : result (matrix Z) :=
  if negb (length X =? length top_k_list)%nat then Raise AssertionError else
  probs ← option_or_raise EstimatorError (predict_proba self X);
  let all_labels := zeros_like 0 probs in
  foldM (predict_row self probs) all_labels (enumerate top_k_list).
End TopKRanker.

(** ** Floats: [int(train_percent * self.num_nodes)] *)

Definition float : Type := spec_float.

(** [float(z)] for a Python [int]: correctly rounded, [OverflowError] when
    out of range (the implicit conversion of [float * int]). *)
Definition float_of_int (z : Z) : result float :=
  match binary_normalize 53 1024 z 0 false with
  | S754_infinity _ => Raise OverflowError
  | x => Ok x
  end.

(** [x * n] for a float [x] and an int [n]. *)
Definition float_mul_int (x : float) (n : Z) : result float :=
  y ← float_of_int n; Ok (SFmul 53 1024 x y).

(** [int(x)]: truncation toward zero. *)
Definition int_of_float (x : float) : result Z :=
  match x with
  | S754_zero _ => Ok 0
  | S754_finite s m e =>
      Ok (cond_Zopp s (if 0 <=? e then Zpos m * 2 ^ e else Zpos m / 2 ^ (- e)))
  | S754_infinity _ => Raise OverflowError
  | S754_nan => Raise ValueError
  end.

(** A decimal literal of the source text denotes the double nearest to it.
    Numerator and denominator of the literals used here are small integers,
    which are doubles, so one correctly rounded division yields that double. *)
Definition float_of_literal (q : Q) : float :=
  SFdiv 53 1024 (binary_normalize 53 1024 (Qnum q) 0 false)
                (binary_normalize 53 1024 (Zpos (Qden q)) 0 false).

(** The literals of [training_percents = [0.1, 0.3, 0.5, 0.7, 0.9]]. *)
Definition training_percent_literals : list Q :=
  [1 # 10; 3 # 10; 5 # 10; 7 # 10; 9 # 10]%Q.

Definition training_percents : list float :=
  float_of_literal <$> training_percent_literals.

Definition digit_string (d : nat) : string :=
  match d with
  | 0 => "0" | 1 => "1" | 2 => "2" | 3 => "3" | 4 => "4"
  | 5 => "5" | 6 => "6" | 7 => "7" | 8 => "8" | _ => "9"
  end%nat.

(** [str(x)] inside the f-string: the shortest decimal text that reads back
    as [x].  Only one-digit fractions [0.d] are searched, which covers the
    training fractions; any other float is rendered as ["?"]. *)
Definition float_repr (x : float) : string :=
  match list_find (λ d : nat, SFeqb (float_of_literal (Z.of_nat d # 10)) x = true)
                  (seq 0 10) with
  | Some (_, d) => "0." +:+ digit_string d
  | None => "?"
  end.

(** ** The task object and [__init__] *)

Record task : Type := {
  num_nodes : nat;
  num_classes : nat;
  label_matrix : matrix Z;
  edge_index : list (Z * Z);
  hidden_size : nat;
  num_shuffle : Z
}.

(** The two shapes of dataset that [__init__] tells apart: a class index
    per node, or an indicator matrix with its shape. *)
Inductive dataset : Type :=
  | SingleLabel (y : list Z) (n_classes : nat) (edges : list (Z * Z))
  | MultiLabel (y : matrix Z) (shape : nat * nat) (edges : list (Z * Z)).

(** [label_matrix = np.zeros((num_nodes, num_classes), dtype=int)]
    [label_matrix[range(num_nodes), y] = 1] *)
Definition one_hot (n_nodes n_classes : nat) (y : list Z) : result (matrix Z) :=
  foldM (λ M ic, setitem2 M (Z.of_nat ic.1) ic.2 1)
        (zeros 0 n_nodes n_classes) (zip (seq 0 n_nodes) y).

Definition init (d : dataset) (hidden num_shuf : Z) : result task :=
  match d with
  | SingleLabel y n_classes edges =>
      let n_nodes := length y in
      lm ← one_hot n_nodes n_classes y;
      Ok {| num_nodes := n_nodes; num_classes := n_classes;
            label_matrix := lm; edge_index := edges;
            hidden_size := Z.to_nat hidden; num_shuffle := num_shuf |}
  | MultiLabel y shape edges =>
      Ok {| num_nodes := shape.1; num_classes := shape.2;
            label_matrix := y; edge_index := edges;
            hidden_size := Z.to_nat hidden; num_shuffle := num_shuf |}
  end.

(** ** Embedding alignment (the first half of [train]) *)

(** [G.add_edges_from(edges); G.nodes()]: the endpoints in order of first
    occurrence. *)
Definition add_node (nodes : list Z) (u : Z) : list Z :=
  if bool_decide (u ∈ nodes) then nodes else nodes ++ [u].

Definition add_edge (nodes : list Z) (e : Z * Z) : list Z :=
  add_node (add_node nodes e.1) e.2.

Definition graph_nodes (edges : list (Z * Z)) : list Z :=
  foldl add_edge [] edges.

(** Assigning a vector to a row of width [w]: equal length, or length one
    (broadcast); anything else is a [ValueError]. *)
Definition broadcast_row {A} (w : nat) (v : list A) : result (list A) :=
  if (length v =? w)%nat then Ok v
  else match v with
       | [x] => Ok (replicate w x)
       | _ => Raise ValueError
       end.

(** [features_matrix = np.zeros((num_nodes, hidden_size))]
    [for vid, node in enumerate(G.nodes()): features_matrix[node] = embeddings[vid]] *)
Definition align_step (embeddings : matrix Q) (w : nat)
    (features : matrix Q) (vn : nat * Z) : result (matrix Q) :=
  e ← getitem embeddings (Z.of_nat vn.1);
  i ← normalize_index (length features) vn.2;
  row ← broadcast_row w e;
  Ok (<[i := row]> features).

Definition align_embeddings (n_nodes hidden : nat) (nodes : list Z)
    (embeddings : matrix Q) : result (matrix Q) :=
  foldM (align_step embeddings hidden) (zeros 0%Q n_nodes hidden) (enumerate nodes).

(** The embedding model: [self.model.train(G)]. *)
Class EmbeddingModel := {
  embed : list Z → list (Z * Z) → result (matrix Q)
}.

(** ** Shuffling *)

(** numpy's global random state, threaded explicitly: a draw of a random
    ordering of [range(n)]. *)
Class RandomState := {
  rng : Type;
  rng_permutation : rng → nat → list nat * rng
}.

Class RandomStateSpec `{RandomState} : Prop := {
  rng_permutation_perm : ∀ g n, (rng_permutation g n).1 ≡ₚ seq 0 n
}.

(** scikit-learn's metric: [f1_score(y_true, y_pred, average="micro")]. *)
Class Metric := {
  f1_score : matrix Z → matrix Z → result Q
}.

Section Shuffle.
Context `{RandomState}.

(** [sklearn.utils.shuffle(X, y)]: one draw, applied to both arrays. *)
Definition skshuffle (X : matrix Q) (y : matrix Z) (g : rng)
    : result ((matrix Q * matrix Z) * rng) :=
  if negb (length X =? length y)%nat then Raise ValueError else
  let '(indices, g') := rng_permutation g (length X) in
  X' ← take_indices X indices;
  y' ← take_indices y indices;
  Ok ((X', y'), g').

(** [for _ in range(num_shuffle): shuffles.append(skshuffle(...))] *)
Definition make_shuffles (X : matrix Q) (y : matrix Z) (n_shuffle : Z) (g : rng)
    : result (list (matrix Q * matrix Z) * rng) :=
  foldM (λ st _, let '(shuffles, g) := st in
                 '(s, g') ← skshuffle X y g;
                 Ok (shuffles ++ [s], g'))
        ([], g) (seq 0 (Z.to_nat n_shuffle)).
End Shuffle.

(** Undoing a shuffle: sort the rows by the original index they carry. *)
Definition unshuffle {A} (indices : list nat) (rows : list A) : list A :=
  snd <$> isort (λ a b : nat * A, (a.1 <=? b.1)%nat) (zip indices rows).

(** ** The split/evaluation driver [_evaluate] *)

(** [all_results = defaultdict(list)], keyed by the training fraction, in
    insertion order. *)
Abbreviation results := (list (float * list Q)) (only parsing).

(** [all_results[key].append(v)] *)
Fixpoint results_append (d : results) (key : float) (v : Q) : results :=
  match d with
  | [] => [(key, [v])]
  | (k, vs) :: d' =>
      if SFeqb k key then (k, vs ++ [v]) :: d'
      else (k, vs) :: results_append d' key v
  end.

(** [all_results[key]]; a missing key reads as the empty list. *)
Fixpoint results_get (d : results) (key : float) : list Q :=
  match d with
  | [] => []
  | (k, vs) :: d' => if SFeqb k key then vs else results_get d' key
  end.

(** [sum(l) / len(l)] *)
Definition mean (l : list Q) : result Q :=
  if (length l =? 0)%nat then Raise ZeroDivisionError
  else Ok (foldl Qplus 0%Q l / inject_Z (Z.of_nat (length l)))%Q.

(** [dict(pairs)]: later pairs overwrite earlier ones. *)
Definition dict (items : list (string * Q)) : gmap string Q :=
  foldl (λ d kv, <[kv.1 := kv.2]> d) ∅ items.

(** The four slices taken from one shuffle. *)
Record split : Type := {
  X_train : matrix Q;
  y_train : matrix Z;
  X_test : matrix Q;
  y_test : matrix Z
}.

Definition split_at (ts : Z) (shuf : matrix Q * matrix Z) : split :=
  {| X_train := slice_to ts shuf.1;
     y_train := slice_to ts shuf.2;
     X_test := slice_from ts shuf.1;
     y_test := slice_from ts shuf.2 |}.

(** [training_size = int(train_percent * self.num_nodes)] *)
Definition training_size (train_percent : float) (n_nodes : nat) : result Z :=
  x ← float_mul_int train_percent (Z.of_nat n_nodes);
  int_of_float x.

(** [top_k_list = list(map(int, y_test.sum(axis=1).T.tolist()[0]))] *)
Definition top_k_list_of (y : matrix Z) : list Z :=
  (λ row, foldr Z.add 0 row) <$> y.

Section Driver.
Context `{Numpy} `{Estimator} `{RandomState} `{Metric}.

(** The predictions of one (fraction, shuffle) cycle. *)
Definition predict_split (self : task) (train_percent : float)
    (shuf : matrix Q * matrix Z) : result (split * matrix Z) :=
  ts ← training_size train_percent (num_nodes self);
  let s := split_at ts shuf in
  clf ← option_or_raise EstimatorError (fit (X_train s) (y_train s));
  let top_k_list := top_k_list_of (y_test s) in
  preds ← predict clf (X_test s) top_k_list;
  Ok (s, preds).

(** The body of the inner loop: the score of one cycle. *)
Definition evaluate_split (self : task) (train_percent : float)
    (shuf : matrix Q * matrix Z) : result Q :=
  '(s, preds) ← predict_split self train_percent shuf;
  f1_score (y_test s) preds.

(** [for train_percent in training_percents: for shuf in shuffles: ...] *)
Definition score_loop (self : task) (percents : list float)
    (shuffles : list (matrix Q * matrix Z)) : result results :=
  foldM (λ all_results train_percent,
           foldM (λ all_results shuf,
                    r ← evaluate_split self train_percent shuf;
                    Ok (results_append all_results train_percent r))
                 all_results shuffles)
        [] percents.

(** The returned [dict(...)] over [sorted(all_results.keys())]. *)
Definition summary (all_results : results) : result (gmap string Q) :=
  items ← mapM_r (λ train_percent,
                    m ← mean (results_get all_results train_percent);
                    Ok ("Micro-F1 " +:+ float_repr train_percent, m))
                 (isort (λ a b, negb (SFltb b a)) (fst <$> all_results));
  Ok (dict items).

Definition _evaluate (self : task) (features_matrix : matrix Q)
    (labels : matrix Z) (n_shuffle : Z) (g : rng)
    : result (gmap string Q * rng) :=
  '(shuffles, g') ← make_shuffles features_matrix labels n_shuffle g;
  all_results ← score_loop self training_percents shuffles;
  d ← summary all_results;
  Ok (d, g').

Definition train `{EmbeddingModel} (self : task) (g : rng)
    : result (gmap string Q * rng) :=
  let nodes := graph_nodes (edge_index self) in
  embeddings ← embed nodes (edge_index self);
  features_matrix ← align_embeddings (num_nodes self) (hidden_size self)
                                     nodes embeddings;
  _evaluate self features_matrix (label_matrix self) (num_shuffle self) g.
End Driver.

(** ** Reference collaborators

    Executable instances of the external interfaces, used to run the
    program on concrete inputs. *)

(** A stable argsort. *)
Definition stable_argsort (a : list Q) : list nat :=
  isort (λ i j, Qle_bool (default 0%Q (a !! i)) (default 0%Q (a !! j)))
        (seq 0 (length a)).

Definition stable_numpy : Numpy := {| argsort := stable_argsort |}.

(** A linear one-vs-rest scorer: the weight vector of class [c] is the sum
    of the training rows that carry [c] minus the sum of those that do not;
    the score of a row is its inner product with the weights, squashed
    into (0, 1). *)
Definition vadd (u v : list Q) : list Q := zip_with (λ a b, Qred (a + b)) u v.
Definition vscale (s : Q) (v : list Q) : list Q := (λ a, Qred (s * a)) <$> v.
Definition dot (u v : list Q) : Q := Qred (foldr Qplus 0%Q (zip_with Qmult u v)).
Definition squash (t : Q) : Q := Qred ((1 + t / (1 + Qabs t)) / 2).

Definition class_weights (X : matrix Q) (y : matrix Z) (c : nat) : list Q :=
  foldr (λ (xr : list Q * list Z) w,
           vadd w (vscale (if default 0 (xr.2 !! c) =? 0 then (-1)%Q else 1%Q) xr.1))
        (replicate (length (default [] (head X))) 0%Q) (zip X y).

Definition linear_fit (X : matrix Q) (y : matrix Z) : option (list (list Q)) :=
  match y with
  | [] => None
  | row :: _ =>
      if (length X =? length y)%nat
      then Some (class_weights X y <$> seq 0 (length row))
      else None
  end.

Definition linear_estimator : Estimator := {|
  model := list (list Q);
  fit := linear_fit;
  classes_ := λ ws, arange (length ws);
  predict_proba := λ ws X, Some ((λ x, (λ w, squash (dot w x)) <$> ws) <$> X)
|}.

(** A deterministic stand-in for the random state: the seed rotates
    [range(n)], and reverses it when odd. *)
Definition rotation (g : Z) (n : nat) : list nat :=
  let r := rotate (Z.to_nat (g `mod` Z.of_nat (S n))) (seq 0 n) in
  if Z.odd g then reverse r else r.

Definition rotating_state : RandomState := {|
  rng := Z;
  rng_permutation := λ g n, (rotation g n, (5 * g + 3) `mod` 64)
|}.

(** Micro-averaged F1 over two indicator matrices of the same shape:
    [2 TP / (2 TP + FP + FN)], and 0 when nothing is positive. *)
Definition count_cells (f : Z → Z → bool) (T P : matrix Z) : Z :=
  foldr Z.add 0
    (zip_with (λ t p, foldr Z.add 0 (zip_with (λ a b, if f a b then 1 else 0) t p)) T P).

Definition same_shape (T P : matrix Z) : bool :=
  (length T =? length P)%nat &&
  forallb (λ tp : list Z * list Z, (length tp.1 =? length tp.2)%nat) (zip T P).

Definition micro_f1_score (T P : matrix Z) : result Q :=
  if negb (same_shape T P) then Raise ValueError else
  let tp := count_cells (λ a b, negb (a =? 0) && negb (b =? 0)) T P in
  let fp := count_cells (λ a b, (a =? 0) && negb (b =? 0)) T P in
  let fn := count_cells (λ a b, negb (a =? 0) && (b =? 0)) T P in
  if 2 * tp + fp + fn =? 0 then Ok 0%Q
  else Ok (Qred (inject_Z (2 * tp) / inject_Z (2 * tp + fp + fn))).

Definition micro_f1 : Metric := {| f1_score := micro_f1_score |}.

(** ** Specification-level notions *)

(** The positions that [probs_.argsort()[-k:]] selects. *)
Definition selected `{Numpy} (k : Z) (probs_ : list Q) : list nat :=
  slice_from (- k) (argsort probs_).

(** A row after [row[j] = 1] for each selected position [j]. *)
Definition mark (row : list Z) (js : list nat) : list Z :=
  foldl (λ r j, <[j := 1]> r) row js.

(** What [predict] returns, row by row: the zero row of the width of the
    probability row, marked at the selected positions. *)
Definition predicted_rows `{Numpy} (P : matrix Q) (ks : list Z) : matrix Z :=
  zip_with (λ p k, mark (replicate (length p) 0) (selected k p)) P ks.

(** The number of positive entries of an indicator row. *)
Definition positives (row : list Z) : nat :=
  length (filter (λ v, v = 1) row).

(** The one-hot row of class [c] among [n_classes]. *)
Definition one_hot_row (n_classes : nat) (c : Z) : list Z :=
  <[Z.to_nat c := 1]> (replicate n_classes 0).

(** What one shuffle is: both arrays re-indexed by one ordering of the row
    numbers, so that the row pairs are kept and the original order can be
    restored. *)
Definition shuffled_by (X : matrix Q) (y : matrix Z)
    (s : matrix Q * matrix Z) (indices : list nat) : Prop :=
  indices ≡ₚ seq 0 (length X) ∧
  take_indices X indices = Ok s.1 ∧
  take_indices y indices = Ok s.2 ∧
  zip s.1 s.2 ≡ₚ zip X y ∧
  unshuffle indices s.1 = X ∧
  unshuffle indices s.2 = y.

(** [floor(f * num_nodes)] in exact arithmetic, for the fraction [f] that
    the literal writes. *)
Definition exact_floor (q : Q) (n_nodes : nat) : Z :=
  Qfloor (q * inject_Z (Z.of_nat n_nodes)).



(** The arithmetic mean, summed from the left as [sum] does. *)
Definition arithmetic_mean (l : list Q) : Q :=
  (foldl Qplus 0 l / inject_Z (Z.of_nat (length l)))%Q.


(** A computation whose only possible exception is [e0]. *)
Definition only_raises {A} (e0 : exn) (r : result A) : Prop :=
  ∀ e, r = Raise e → e = e0.

(** An indicator matrix: every entry is 0 or 1. *)
Definition binary (M : matrix Z) : Prop :=
  Forall (Forall (λ v, v = 0 ∨ v = 1)) M.

(** ** Example inputs *)

(** Ten nodes with a one-dimensional feature, five of class 0 and five of
    class 1. *)
Definition separable_features : matrix Q :=
  [[1]; [2]; [3]; [4]; [5]; [-1]; [-2]; [-3]; [-4]; [-5]]%Q.

Definition separable_labels : matrix Z :=
  [[1; 0]; [1; 0]; [1; 0]; [1; 0]; [1; 0]; [0; 1]; [0; 1]; [0; 1]; [0; 1]; [0; 1]].

Definition separable_task : task := {|
  num_nodes := 10; num_classes := 2; label_matrix := separable_labels;
  edge_index := []; hidden_size := 1; num_shuffle := 2
|}.

(** A multi-label dataset of four nodes whose last node carries no label. *)
Definition sparse_features : matrix Q := [[1]; [-1]; [2]; [0]]%Q.
Definition sparse_labels : matrix Z := [[1; 0]; [0; 1]; [1; 0]; [0; 0]].

Definition sparse_task : task := {|
  num_nodes := 4; num_classes := 2; label_matrix := sparse_labels;
  edge_index := [(0, 1); (1, 2); (2, 3)]; hidden_size := 1; num_shuffle := 1
|}.

(** The linear scorer fitted on the separable data, three test rows and
    their probabilities. *)
Definition separable_model : list (list Q) :=
  default [] (linear_fit separable_features separable_labels).

Definition three_rows : matrix Q := [[1]; [-1]; [2]]%Q.

Definition three_probs : matrix Q :=
  default [] (@predict_proba linear_estimator separable_model three_rows).



(** The cycle at fraction 0.5 on the separable data in their original
    order: the split and the predictions. *)
Definition separable_cycle : split * list (list Z) :=
  match @predict_split stable_numpy linear_estimator separable_task
          (float_of_literal (5 # 10)) (separable_features, separable_labels) with
  | Ok r => r
  | Raise _ => (split_at 0 ([], []), [])
  end.

(** An embedding model that describes a node by its index and its number
    of incident edge ends. *)
Definition degree_embedding : EmbeddingModel := {|
  embed := λ nodes edges,
    Ok ((λ u, [inject_Z u;
               inject_Z (Z.of_nat (length (filter (λ e : Z * Z, e.1 = u ∨ e.2 = u) edges)))])
          <$> nodes)
|}.

(** The sparse task with an edge to a node 7 that the label matrix does
    not have. *)
Definition stray_task : task := {|
  num_nodes := 4; num_classes := 2; label_matrix := sparse_labels;
  edge_index := [(0, 1); (1, 7)]; hidden_size := 2; num_shuffle := 1
|}.

(** The report of the evaluation of the separable data with two shuffles
    drawn from seed 7. *)
Definition separable_report : gmap string Q * Z :=
  match @_evaluate stable_numpy linear_estimator rotating_state micro_f1
          separable_task separable_features separable_labels 2 7 with
  | Ok r => r
  | Raise _ => (∅, 0)
  end.

(** A task built from a single-label dataset of five nodes; nodes 2 and 4
    have no edge. *)
Definition five_node_task : task :=
  match init (SingleLabel [0; 2; 1; 2; 1] 3 [(3, 1); (1, 0); (3, 0)]) 2 2 with
  | Ok t => t
  | Raise _ => sparse_task
  end.

(** ** Notions used by the further properties *)

(** The position that an index selects in a sequence of length [n]: a
    negative index counts from the end. *)
Definition wrap_index (n : nat) (i : Z) : Z :=
  if i <? 0 then i + Z.of_nat n else i.

(** An index outside [-n, n). *)
Definition out_of_bounds (n : nat) (i : Z) : Prop :=
  i < - Z.of_nat n ∨ Z.of_nat n ≤ i.

(** A score between 0 and 1. *)
Definition unit_interval (q : Q) : Prop := (0 <= q)%Q ∧ (q <= 1)%Q.

(* ===================================================================== *)
(** * Part II: properties                                                *)
(* ===================================================================== *)

(** ** The error monad and indexing *)

Lemma rbind_ok {A B} (f : A → result B) (m : result A) (b : B) :
  m ≫= f = Ok b ↔ ∃ a, m = Ok a ∧ f a = Ok b.
Proof.
  destruct m as [a|e]; simpl; split.
  - eauto.
  - by intros (a' & [= <-] & ?).
  - done.
  - by intros (? & ? & ?).
Qed.

Lemma normalize_index_nat (n i : nat) :
  (i < n)%nat → normalize_index n (Z.of_nat i) = Ok i.
Proof.
  intros Hi. unfold normalize_index.
  destruct (Z.leb_spec 0 (Z.of_nat i)); [|lia].
  destruct (Z.ltb_spec (Z.of_nat i) (Z.of_nat n)); [|lia].
  simpl. by rewrite Nat2Z.id.
Qed.

Lemma normalize_index_lt (n : nat) (i : Z) (j : nat) :
  normalize_index n i = Ok j → (j < n)%nat.
Proof.
  unfold normalize_index.
  destruct (Z.leb_spec 0 i), (Z.ltb_spec i (Z.of_nat n)); simpl;
    try (intros [= <-]; lia);
    destruct (Z.leb_spec (- Z.of_nat n) i), (Z.ltb_spec i 0); simpl;
    try done; intros [= <-]; lia.
Qed.

Lemma getitem_nat {A} (l : list A) (i : nat) (x : A) :
  l !! i = Some x → getitem l (Z.of_nat i) = Ok x.
Proof.
  intros Hx. unfold getitem.
  rewrite normalize_index_nat by (by eapply lookup_lt_Some).
  simpl. by rewrite Hx.
Qed.

Lemma getitem_arange (n j : nat) :
  (j < n)%nat → getitem (arange n) (Z.of_nat j) = Ok (Z.of_nat j).
Proof.
  intros Hj. apply getitem_nat. unfold arange.
  rewrite list_lookup_fmap, lookup_seq_lt by done. done.
Qed.

Lemma mapM_r_ok {A B} (f : A → result B) (g : A → B) (l : list A) :
  Forall (λ x, f x = Ok (g x)) l → mapM_r f l = Ok (g <$> l).
Proof.
  induction 1 as [|x l Hx _ IH]; simpl; [done|].
  by rewrite Hx; simpl; rewrite IH.
Qed.

Lemma take_indices_ok {A} (l : list A) (idx : list nat) :
  Forall (λ i, (i < length l)%nat) idx →
  ∃ l', take_indices l idx = Ok l' ∧ length l' = length idx ∧
        ∀ j i, idx !! j = Some i → l' !! j = l !! i.
Proof.
  induction 1 as [|i idx Hi _ (l' & Heq & Hlen & Hl')]; simpl.
  - exists []. by split_and!.
  - destruct (lookup_lt_is_Some_2 l i Hi) as [x Hx].
    exists (x :: l'). unfold take_indices in *. simpl.
    rewrite (getitem_nat _ _ _ Hx). simpl. rewrite Heq. simpl.
    split_and!; [done|by rewrite Hlen|].
    intros [|j] i'; simpl; [by intros [= <-]|apply Hl'].
Qed.

Lemma setitem2_nat {A} (M : matrix A) (i j : nat) (row : list A) (v : A) :
  M !! i = Some row → (j < length row)%nat →
  setitem2 M (Z.of_nat i) (Z.of_nat j) v = Ok (<[i := <[j := v]> row]> M).
Proof.
  intros Hrow Hj. unfold setitem2.
  rewrite normalize_index_nat by (by eapply lookup_lt_Some).
  simpl. rewrite Hrow. simpl.
  by rewrite normalize_index_nat.
Qed.

(** ** Slices *)

Lemma slice_bound_le (n : nat) (start : Z) : (slice_bound n start ≤ n)%nat.
Proof. unfold slice_bound. destruct (Z.ltb_spec start 0); lia. Qed.

Lemma slice_to_from {A} (i : Z) (l : list A) :
  slice_to i l ++ slice_from i l = l.
Proof. apply take_drop. Qed.

Lemma slice_to_length {A} (i : Z) (l : list A) :
  length (slice_to i l) = slice_bound (length l) i.
Proof.
  unfold slice_to. rewrite length_take.
  pose proof (slice_bound_le (length l) i). lia.
Qed.

Lemma slice_from_length {A} (i : Z) (l : list A) :
  length (slice_from i l) = (length l - slice_bound (length l) i)%nat.
Proof. unfold slice_from. by rewrite length_drop. Qed.

Lemma slice_bound_neg_zero (n : nat) : slice_bound n (- 0) = 0%nat.
Proof. unfold slice_bound. simpl. lia. Qed.

Lemma slice_bound_neg_pos (n : nat) (k : Z) :
  1 ≤ k ≤ Z.of_nat n → slice_bound n (- k) = (n - Z.to_nat k)%nat.
Proof.
  intros Hk. unfold slice_bound.
  destruct (Z.ltb_spec (- k) 0); lia.
Qed.

Lemma slice_bound_nonneg (n : nat) (i : Z) :
  0 ≤ i ≤ Z.of_nat n → slice_bound n i = Z.to_nat i.
Proof.
  intros Hi. unfold slice_bound.
  destruct (Z.ltb_spec i 0); lia.
Qed.

(** ** Marking a row *)

Lemma mark_length (row : list Z) (js : list nat) :
  length (mark row js) = length row.
Proof.
  revert row. induction js as [|j js IH]; intros row; simpl; [done|].
  unfold mark in *. simpl. by rewrite IH, length_insert.
Qed.

Lemma mark_lookup_keep (row : list Z) (js : list nat) (c : nat) :
  row !! c = Some 1 → mark row js !! c = Some 1.
Proof.
  revert row. induction js as [|j js IH]; intros row Hc; [done|].
  unfold mark in *. simpl. apply IH.
  destruct (decide (j = c)) as [->|Hne].
  - apply list_lookup_insert_eq. by eapply lookup_lt_Some.
  - by rewrite list_lookup_insert_ne.
Qed.

Lemma mark_lookup_in (row : list Z) (js : list nat) (c : nat) :
  c ∈ js → (c < length row)%nat → mark row js !! c = Some 1.
Proof.
  revert row. induction js as [|j js IH]; intros row Hc Hlt.
  - by apply elem_of_nil in Hc.
  - apply elem_of_cons in Hc as [->|Hin].
    + apply (mark_lookup_keep (<[j := 1]> row) js j).
      by apply list_lookup_insert_eq.
    + apply (IH (<[j := 1]> row)); [done|by rewrite length_insert].
Qed.

Lemma mark_lookup_notin (row : list Z) (js : list nat) (c : nat) :
  c ∉ js → mark row js !! c = row !! c.
Proof.
  revert row. induction js as [|j js IH]; intros row Hc; [done|].
  apply not_elem_of_cons in Hc as [Hne Hnin].
  unfold mark in *. simpl. rewrite IH by done.
  by apply list_lookup_insert_ne.
Qed.

Lemma mark_zero_row (n : nat) (js : list nat) :
  mark (replicate n 0) js =
  (λ c, if bool_decide (c ∈ js) then 1 else 0) <$> seq 0 n.
Proof.
  apply list_eq. intros c.
  rewrite list_lookup_fmap.
  destruct (decide (c < n)%nat) as [Hlt|Hge].
  - rewrite lookup_seq_lt by done. simpl.
    case_bool_decide.
    + apply mark_lookup_in; [done|by rewrite length_replicate].
    + rewrite mark_lookup_notin by done. by apply lookup_replicate_2.
  - rewrite lookup_seq_ge by lia. simpl.
    apply lookup_ge_None_2. rewrite mark_length, length_replicate. lia.
Qed.

Lemma positives_indicator (js : list nat) (l : list nat) :
  positives ((λ c, if bool_decide (c ∈ js) then 1 else 0) <$> l) =
  length (filter (λ c, c ∈ js) l).
Proof.
  unfold positives. induction l as [|c l IH]; [done|].
  rewrite fmap_cons, !filter_cons.
  case_bool_decide; repeat case_decide; simpl; try done; by rewrite IH.
Qed.

Lemma positives_mark (n : nat) (js : list nat) :
  NoDup js → Forall (λ j, (j < n)%nat) js →
  positives (mark (replicate n 0) js) = length js.
Proof.
  intros Hnd Hlt. rewrite mark_zero_row, positives_indicator.
  apply Permutation_length, NoDup_Permutation.
  - apply NoDup_filter, NoDup_seq.
  - done.
  - intros c. rewrite list_elem_of_filter, elem_of_seq.
    split; [by intros [? _]|].
    intros Hc. split; [done|].
    rewrite Forall_forall in Hlt. specialize (Hlt c Hc). lia.
Qed.

(** ** [TopKRanker.predict] in closed form *)

Section TopKRankerFacts.
Context `{NumpySpec} `{Estimator}.

Lemma argsort_NoDup (a : list Q) : NoDup (argsort a).
Proof. rewrite (argsort_perm a). apply NoDup_seq. Qed.

Lemma argsort_length (a : list Q) : length (argsort a) = length a.
Proof. by rewrite (argsort_perm a), length_seq. Qed.

Lemma argsort_elem_of (a : list Q) (j : nat) :
  j ∈ argsort a ↔ (j < length a)%nat.
Proof. rewrite (argsort_perm a), elem_of_seq. lia. Qed.

Lemma selected_NoDup (k : Z) (p : list Q) : NoDup (selected k p).
Proof.
  unfold selected, slice_from.
  apply (sublist_NoDup _ (argsort p)); [apply argsort_NoDup|apply sublist_drop].
Qed.

Lemma selected_lt (k : Z) (p : list Q) :
  Forall (λ j, (j < length p)%nat) (selected k p).
Proof.
  apply Forall_forall. intros j Hj. apply argsort_elem_of.
  unfold selected, slice_from in Hj.
  eapply list_elem_of_lookup in Hj as [i Hi].
  rewrite lookup_drop in Hi. by eapply list_elem_of_lookup_2.
Qed.

Lemma selected_length (k : Z) (p : list Q) :
  length (selected k p) = (length p - slice_bound (length p) (- k))%nat.
Proof.
  unfold selected. by rewrite slice_from_length, argsort_length.
Qed.


Lemma mark_loop (M : matrix Z) (i : nat) (row : list Z) (js : list nat) :
  M !! i = Some row → Forall (λ j, (j < length row)%nat) js →
  foldM (λ M label, setitem2 M (Z.of_nat i) label 1) M (Z.of_nat <$> js)
  = Ok (<[i := mark row js]> M).
Proof.
  revert M row. induction js as [|j js IH]; intros M row Hrow Hjs; simpl.
  - by rewrite list_insert_id.
  - apply Forall_cons in Hjs as [Hj Hjs].
    rewrite (setitem2_nat M i j row) by done. simpl.
    rewrite (IH _ (<[j := 1]> row)).
    + by rewrite list_insert_insert_eq.
    + apply list_lookup_insert_eq. by eapply lookup_lt_Some.
    + by rewrite length_insert.
Qed.

Lemma predict_row_ok (m : model) (probs : matrix Q) (M : matrix Z)
    (i : nat) (k : Z) (p : list Q) (row : list Z) :
  classes_ m = arange (length p) →
  probs !! i = Some p → M !! i = Some row → length row = length p →
  predict_row m probs M (i, k) = Ok (<[i := mark row (selected k p)]> M).
Proof.
  intros Hcl Hp Hrow Hlen. unfold predict_row.
  rewrite (getitem_nat _ _ _ Hp). simpl.
  fold (selected k p).
  rewrite (mapM_r_ok _ Z.of_nat).
  - simpl. apply mark_loop; [done|].
    rewrite Hlen. apply selected_lt.
  - eapply Forall_impl; [apply selected_lt|].
    intros j Hj. simpl in *. rewrite Hcl. by apply getitem_arange.
Qed.

Lemma predict_loop (m : model) (n : nat) :
  classes_ m = arange n →
  ∀ (ks : list Z) (pre suf : matrix Q) (filled : matrix Z),
    Forall (λ p, length p = n) suf →
    length filled = length pre → (length ks ≤ length suf)%nat →
    foldM (predict_row m (pre ++ suf)) (filled ++ zeros_like 0 suf)
          (zip (seq (length pre) (length ks)) ks)
    = Ok (filled ++ predicted_rows suf ks ++ zeros_like 0 (drop (length ks) suf)).
Proof.
  intros Hcl. induction ks as [|k ks IH]; intros pre suf filled Hn Hlen Hks.
  - simpl. unfold predicted_rows.
    by destruct suf.
  - destruct suf as [|p suf]; [simpl in Hks; lia|].
    apply Forall_cons in Hn as [Hp Hn].
    cbn [length seq zip zip_with foldM].
    rewrite (predict_row_ok m _ _ _ k p (replicate (length p) 0)).
    + simpl. rewrite <- Hlen.
      rewrite (insert_app_r_alt filled _ (length filled)) by lia.
      rewrite Nat.sub_diag. simpl.
      rewrite (cons_middle p pre suf), (cons_middle _ filled), !app_assoc.
      replace (S (length filled)) with (length (pre ++ [p]))
        by (rewrite length_app; simpl; lia).
      rewrite IH.
      * by rewrite <- !app_assoc.
      * done.
      * rewrite !length_app. simpl. lia.
      * simpl in Hks. lia.
    + by rewrite Hp.
    + by apply list_lookup_middle.
    + rewrite <- Hlen. by apply list_lookup_middle.
    + by rewrite length_replicate.
Qed.

(** Under its precondition and the estimator's contract, [predict]
    returns, and returns [predicted_rows]. *)
Lemma predict_ok (m : model) (X P : matrix Q) (ks : list Z) :
  fitted m → predict_proba m X = Some P → length X = length ks →
  predict m X ks = Ok (predicted_rows P ks).
Proof.
  intros [Hcl Hshape] HP Hlen. unfold predict.
  rewrite Hlen, Nat.eqb_refl. simpl. rewrite HP. simpl.
  destruct (Hshape X P HP) as [HlenP Hrows].
  pose proof (predict_loop m _ Hcl ks [] P [] Hrows eq_refl) as Hloop.
  simpl in Hloop. unfold enumerate. rewrite Hloop by lia.
  rewrite drop_ge by lia. simpl. by rewrite app_nil_r.
Qed.

Lemma predicted_rows_lookup (P : matrix Q) (ks : list Z) (i : nat) (row : list Z) :
  predicted_rows P ks !! i = Some row ↔
  ∃ p k, P !! i = Some p ∧ ks !! i = Some k ∧
         row = mark (replicate (length p) 0) (selected k p).
Proof.
  unfold predicted_rows. rewrite lookup_zip_with_Some. split.
  - intros (p & k & -> & ? & ?). by exists p, k.
  - intros (p & k & ? & ? & ->). by exists p, k.
Qed.



Lemma predicted_row_count (k : Z) (p : list Q) :
  positives (mark (replicate (length p) 0) (selected k p))
  = (length p - slice_bound (length p) (- k))%nat.
Proof.
  rewrite positives_mark; [apply selected_length|apply selected_NoDup|apply selected_lt].
Qed.

(** For an oracle count between 1 and the number of classes the row has
    exactly that many positives. *)
Lemma predicted_row_count_in_range (k : Z) (p : list Q) :
  1 ≤ k ≤ Z.of_nat (length p) →
  Z.of_nat (positives (mark (replicate (length p) 0) (selected k p))) = k.
Proof.
  intros Hk. rewrite predicted_row_count, slice_bound_neg_pos by done. lia.
Qed.

(** For the oracle count 0 the slice [[-0:]] is the whole ranking: every
    class is marked. *)
Lemma predicted_row_zero_count (p : list Q) :
  mark (replicate (length p) 0) (selected 0 p) = replicate (length p) 1.
Proof.
  rewrite mark_zero_row. apply list_eq. intros c.
  rewrite list_lookup_fmap.
  destruct (decide (c < length p)%nat) as [Hlt|Hge].
  - rewrite lookup_seq_lt, lookup_replicate_2 by done. simpl.
    rewrite bool_decide_true; [done|].
    unfold selected, slice_from. rewrite argsort_length.
    rewrite slice_bound_neg_zero, drop_0. by apply argsort_elem_of.
  - rewrite lookup_seq_ge by lia. symmetry.
    apply lookup_replicate_None. lia.
Qed.
End TopKRankerFacts.

(** ** Insertion sort *)

Section SortFacts.
Context {A : Type} (leb : A → A → bool).

Lemma insert_sorted_perm (x : A) (l : list A) :
  insert_sorted leb x l ≡ₚ x :: l.
Proof.
  induction l as [|y l IH]; simpl; [done|].
  destruct (leb x y); [done|].
  by rewrite IH, Permutation_swap.
Qed.

Lemma isort_perm (l : list A) : isort leb l ≡ₚ l.
Proof.
  induction l as [|x l IH]; simpl; [done|].
  by rewrite insert_sorted_perm, IH.
Qed.

Hypothesis leb_total : ∀ x y, leb x y = true ∨ leb y x = true.
Hypothesis leb_trans : ∀ x y z, leb x y = true → leb y z = true → leb x z = true.

Lemma insert_sorted_sorted (x : A) (l : list A) :
  StronglySorted (λ a b, leb a b = true) l →
  StronglySorted (λ a b, leb a b = true) (insert_sorted leb x l).
Proof.
  induction 1 as [|y l Hl IH Hy]; simpl.
  - repeat constructor.
  - destruct (leb x y) eqn:Hxy.
    + constructor; [by constructor|].
      constructor; [done|].
      eapply Forall_impl; [exact Hy|]. intros z Hz. by eapply leb_trans.
    + constructor; [done|].
      rewrite insert_sorted_perm. constructor; [|done].
      destruct (leb_total x y); congruence.
Qed.

Lemma isort_sorted (l : list A) :
  StronglySorted (λ a b, leb a b = true) (isort leb l).
Proof.
  induction l as [|x l IH]; simpl; [constructor|].
  by apply insert_sorted_sorted.
Qed.
End SortFacts.

Lemma StronglySorted_lookup {A} (R : relation A) (l : list A) (i j : nat) (x y : A) :
  StronglySorted R l → (i < j)%nat →
  l !! i = Some x → l !! j = Some y → R x y.
Proof.
  intros Hl. revert i j. induction Hl as [|z l Hl IH Hz]; intros i j Hij Hi Hj.
  - done.
  - destruct j as [|j]; [lia|]. simpl in Hj. destruct i as [|i]; simpl in Hi.
    + injection Hi as ->. rewrite Forall_forall in Hz.
      apply Hz. by eapply list_elem_of_lookup_2.
    + apply (IH i j); [lia|done..].
Qed.

Lemma StronglySorted_seq (s n : nat) : StronglySorted le (seq s n).
Proof.
  revert s. induction n as [|n IH]; intros s; simpl; constructor; [done|].
  apply Forall_forall. intros j Hj. apply elem_of_seq in Hj. lia.
Qed.

(** ** The reference collaborators meet the contracts *)

Lemma stable_numpy_spec : @NumpySpec stable_numpy.
Proof.
  split; simpl; intros a.
  - apply isort_perm.
  - intros i j x y u v Hij Hx Hy Hu Hv.
    destruct (decide (i = j)) as [->|Hne].
    + assert (x = y) as -> by congruence.
      assert (u = v) as -> by congruence. apply Qle_refl.
    + unfold stable_argsort in *.
      set (leb := λ i j : nat, Qle_bool (default 0%Q (a !! i)) (default 0%Q (a !! j))).
      assert (leb x y = true) as Hle.
      { apply (StronglySorted_lookup (λ a b, leb a b = true)
                 (isort leb (seq 0 (length a))) i j); [|lia|done..].
        apply isort_sorted; unfold leb.
        - intros p q. rewrite !Qle_bool_iff.
          destruct (Qlt_le_dec (default 0%Q (a !! p)) (default 0%Q (a !! q)));
            [left; by apply Qlt_le_weak|by right].
        - intros p q r. rewrite !Qle_bool_iff. apply Qle_trans. }
      unfold leb in Hle. rewrite Hu, Hv in Hle. simpl in Hle.
      by apply Qle_bool_iff.
Qed.

Lemma linear_estimator_spec : @EstimatorSpec linear_estimator.
Proof.
  split. intros X y m _. split; simpl.
  - unfold arange. by rewrite length_fmap, length_seq.
  - intros X' P [= <-]. rewrite length_fmap. split; [done|].
    apply Forall_fmap, Forall_forall. intros x _. simpl.
    unfold arange. by rewrite !length_fmap, length_seq.
Qed.

Lemma rotating_state_spec : @RandomStateSpec rotating_state.
Proof.
  split. intros g n. simpl. unfold rotation.
  assert (∀ k, rotate k (seq 0 n) ≡ₚ seq 0 n) as Hrot.
  { intros k. unfold rotate.
    by rewrite Permutation_app_comm, take_drop. }
  destruct (Z.odd g); [rewrite reverse_Permutation|]; apply Hrot.
Qed.

(** ** Which exceptions can escape *)

Lemma only_raises_ok {A} (e0 : exn) (a : A) : only_raises e0 (Ok a).
Proof. by intros e. Qed.

Lemma only_raises_bind {A B} (e0 : exn) (m : result A) (f : A → result B) :
  only_raises e0 m → (∀ a, only_raises e0 (f a)) → only_raises e0 (m ≫= f).
Proof.
  intros Hm Hf e. destruct m as [a|e']; simpl; [apply Hf|].
  intros [= <-]. by apply Hm.
Qed.

Lemma only_raises_option {A} (e0 : exn) (o : option A) :
  only_raises e0 (option_or_raise e0 o).
Proof. intros e. destruct o; simpl; congruence. Qed.

Lemma only_raises_normalize_index (n : nat) (i : Z) :
  only_raises IndexError (normalize_index n i).
Proof. intros e. unfold normalize_index. repeat case_match; congruence. Qed.

Lemma only_raises_getitem {A} (l : list A) (i : Z) :
  only_raises IndexError (getitem l i).
Proof.
  apply only_raises_bind; [apply only_raises_normalize_index|].
  intros j. apply only_raises_option.
Qed.

Lemma only_raises_setitem2 {A} (M : matrix A) (i j : Z) (v : A) :
  only_raises IndexError (setitem2 M i j v).
Proof.
  apply only_raises_bind; [apply only_raises_normalize_index|]. intros i'.
  apply only_raises_bind; [apply only_raises_option|]. intros row.
  apply only_raises_bind; [apply only_raises_normalize_index|]. intros j'.
  apply only_raises_ok.
Qed.

Lemma only_raises_mapM {A B} (e0 : exn) (f : A → result B) (l : list A) :
  (∀ x, only_raises e0 (f x)) → only_raises e0 (mapM_r f l).
Proof.
  intros Hf. induction l as [|x l IH]; simpl; [apply only_raises_ok|].
  apply only_raises_bind; [apply Hf|]. intros y.
  apply only_raises_bind; [apply IH|]. intros ys. apply only_raises_ok.
Qed.

Lemma only_raises_foldM {A S} (e0 : exn) (f : S → A → result S) (s : S) (l : list A) :
  (∀ s x, only_raises e0 (f s x)) → only_raises e0 (foldM f s l).
Proof.
  intros Hf. revert s. induction l as [|x l IH]; intros s; simpl;
    [apply only_raises_ok|].
  apply only_raises_bind; [apply Hf|]. apply IH.
Qed.

Lemma only_raises_predict_row `{Numpy} `{Estimator} (m : model)
    (probs : matrix Q) (M : matrix Z) (ik : nat * Z) :
  only_raises IndexError (predict_row m probs M ik).
Proof.
  destruct ik as [i k]. unfold predict_row.
  apply only_raises_bind; [apply only_raises_getitem|]. intros p.
  apply only_raises_bind.
  - apply only_raises_mapM. intros j. apply only_raises_getitem.
  - intros labels. apply only_raises_foldM. intros M' l.
    apply only_raises_setitem2.
Qed.

(** ** Claims about [TopKRanker.predict] *)

(** C9. [predict] requires as many test rows as entries of [top_k_list].
    When the two differ the result is the assertion failure whatever the
    estimator is, also one whose [predict_proba] would fail: the
    probabilities are not consulted.  When they agree, no run of [predict]
    ends in the assertion failure. *)
Theorem predict_assertion `{Numpy} `{Estimator} (m : model) (X : matrix Q)
    (top_k_list : list Z) :
  (length X ≠ length top_k_list → predict m X top_k_list = Raise AssertionError) ∧
  (length X = length top_k_list → predict m X top_k_list ≠ Raise AssertionError).
Proof.
  unfold predict. split; intros Hlen.
  - apply Nat.eqb_neq in Hlen. by rewrite Hlen.
  - rewrite Hlen, Nat.eqb_refl. simpl. intros Hraise.
    destruct (predict_proba m X) as [P|]; simpl in Hraise; [|done].
    assert (AssertionError = IndexError) as Heq; [|done].
    eapply (only_raises_foldM IndexError); [|exact Hraise].
    intros M ik. apply only_raises_predict_row.
Qed.


(** C10. Under the estimator's contract, a test row whose oracle count is
    0 comes back with every class marked positive: the slice [[-0:]] keeps
    the whole ranking. *)
Theorem predict_zero_count_marks_every_class `{NumpySpec} `{Estimator}
    (m : model) (X P : matrix Q) (top_k_list : list Z) :
  fitted m → predict_proba m X = Some P → length X = length top_k_list →
  ∃ L, predict m X top_k_list = Ok L ∧
    ∀ i, top_k_list !! i = Some 0 →
      (i < length X)%nat ∧ L !! i = Some (replicate (length (classes_ m)) 1).
Proof.
  intros Hfit HP Hlen. exists (predicted_rows P top_k_list).
  destruct (Hfit) as [_ Hshape]. destruct (Hshape X P HP) as [HlenP Hrows].
  split; [by apply predict_ok|].
  intros i Hk.
  assert (i < length X)%nat as Hi by (rewrite Hlen; by eapply lookup_lt_Some).
  split; [done|].
  destruct (lookup_lt_is_Some_2 P i) as [p Hp]; [lia|].
  assert (length p = length (classes_ m)) as Hn.
  { rewrite Forall_forall in Hrows. apply Hrows. by eapply list_elem_of_lookup_2. }
  rewrite <- Hn, <- predicted_row_zero_count.
  apply predicted_rows_lookup. by exists p, 0.
Qed.

Lemma separable_model_fitted : @fitted linear_estimator separable_model.
Proof.
  apply (@fit_fitted _ linear_estimator_spec separable_features separable_labels).
  reflexivity.
Qed.

Lemma predict_assertion_witness :
  @predict stable_numpy linear_estimator separable_model three_rows [1; 0]
    = Raise AssertionError ∧
  @predict stable_numpy linear_estimator separable_model three_rows [1; 0; 2]
    ≠ Raise AssertionError.
Proof.
  split.
  - apply (@predict_assertion stable_numpy linear_estimator
             separable_model three_rows [1; 0]). simpl. lia.
  - apply (@predict_assertion stable_numpy linear_estimator
             separable_model three_rows [1; 0; 2]). reflexivity.
Defined.


Lemma predict_zero_count_marks_every_class_witness :
  @fitted linear_estimator separable_model ∧
  @predict_proba linear_estimator separable_model three_rows = Some three_probs ∧
  length three_rows = length [1; 0; 2] ∧
  ∃ L, @predict stable_numpy linear_estimator separable_model three_rows [1; 0; 2] = Ok L ∧
    ∀ i, [1; 0; 2] !! i = Some 0 →
      (i < length three_rows)%nat ∧
      L !! i = Some (replicate (length (@classes_ linear_estimator separable_model)) 1).
Proof.
  split; [exact separable_model_fitted|].
  split; [reflexivity|]. split; [reflexivity|].
  apply (@predict_zero_count_marks_every_class stable_numpy stable_numpy_spec
           linear_estimator separable_model three_rows three_probs [1; 0; 2]).
  - exact separable_model_fitted.
  - reflexivity.
  - reflexivity.
Defined.

(** C1. The count of positives is not always the oracle count.  On the
    four-node dataset whose last node carries no label, the cycle at
    fraction 0.5 hands [predict] the oracle counts [1; 0]; the second test
    row comes back with both classes marked, two positives for an oracle
    count of 0. *)
Theorem predict_count_differs_on_unlabelled_row :
  ∃ s preds,
    @predict_split stable_numpy linear_estimator sparse_task
      (float_of_literal (5 # 10)) (sparse_features, sparse_labels) = Ok (s, preds) ∧
    top_k_list_of (y_test s) = [1; 0] ∧
    preds = [[1; 0]; [1; 1]] ∧
    positives [1; 1] = 2%nat.
Proof. eexists _, _. vm_compute. done. Qed.

(** ** The oracle count *)

Lemma row_sum_positives (row : list Z) :
  Forall (λ v, v = 0 ∨ v = 1) row →
  foldr Z.add 0 row = Z.of_nat (positives row).
Proof.
  unfold positives. induction 1 as [|v row Hv _ IH]; [done|].
  rewrite filter_cons. simpl. rewrite IH.
  destruct Hv as [-> | ->]; case_decide; simpl; try done; lia.
Qed.




(** ** The label matrix builder *)

Lemma one_hot_loop (n_classes : nat) (y : list Z) :
  Forall (λ c, 0 ≤ c < Z.of_nat n_classes) y →
  ∀ filled : matrix Z,
    foldM (λ M ic, setitem2 M (Z.of_nat ic.1) ic.2 1)
          (filled ++ zeros 0 (length y) n_classes)
          (zip (seq (length filled) (length y)) y)
    = Ok (filled ++ (one_hot_row n_classes <$> y)).
Proof.
  induction 1 as [|c y Hc _ IH]; intros filled; [done|].
  cbn [length seq zip zip_with foldM fst snd].
  unfold zeros. cbn [replicate]. fold (zeros 0 (length y) n_classes).
  rewrite <- (Z2Nat.id c) at 1 by lia.
  rewrite (setitem2_nat _ _ _ (replicate n_classes 0)).
  - simpl. rewrite (insert_app_r_alt filled _ (length filled)) by lia.
    rewrite Nat.sub_diag. simpl. fold (one_hot_row n_classes c).
    rewrite (cons_middle _ filled), app_assoc.
    replace (S (length filled)) with (length (filled ++ [one_hot_row n_classes c]))
      by (rewrite length_app; simpl; lia).
    rewrite IH. by rewrite <- app_assoc.
  - by apply list_lookup_middle.
  - rewrite length_replicate. lia.
Qed.

Lemma one_hot_row_lookup (n_classes : nat) (c : Z) (j : nat) :
  0 ≤ c < Z.of_nat n_classes → (j < n_classes)%nat →
  one_hot_row n_classes c !! j = Some (if decide (Z.of_nat j = c) then 1 else 0).
Proof.
  intros Hc Hj. unfold one_hot_row. case_decide as Hjc.
  - subst c. rewrite Nat2Z.id.
    apply list_lookup_insert_eq. by rewrite length_replicate.
  - rewrite list_lookup_insert_ne by lia. by apply lookup_replicate_2.
Qed.

(** C5. For a single-label dataset whose class indices lie in
    [0, num_classes), the constructor succeeds and stores a matrix with
    one row per node and one column per class; row [i] has a 1 in the
    column of the class of node [i] and 0 everywhere else. *)
Theorem init_label_matrix_one_hot (y : list Z) (n_classes : nat)
    (edges : list (Z * Z)) (hidden num_shuf : Z) :
  Forall (λ c, 0 ≤ c < Z.of_nat n_classes) y →
  ∃ t, init (SingleLabel y n_classes edges) hidden num_shuf = Ok t ∧
    num_nodes t = length y ∧ num_classes t = n_classes ∧
    length (label_matrix t) = num_nodes t ∧
    ∀ i c, y !! i = Some c →
      ∃ row, label_matrix t !! i = Some row ∧ length row = n_classes ∧
        ∀ j, (j < n_classes)%nat →
          row !! j = Some (if decide (Z.of_nat j = c) then 1 else 0).
Proof.
  intros Hy. simpl. unfold one_hot.
  pose proof (one_hot_loop n_classes y Hy []) as Hloop. simpl in Hloop.
  rewrite Hloop. simpl. eexists. split; [done|]. simpl.
  split_and!; [done|done|by rewrite length_fmap|].
  intros i c Hc. exists (one_hot_row n_classes c).
  rewrite Forall_forall in Hy.
  assert (0 ≤ c < Z.of_nat n_classes) as Hrange
    by (apply Hy; by eapply list_elem_of_lookup_2).
  split_and!.
  - by rewrite list_lookup_fmap, Hc.
  - unfold one_hot_row. by rewrite length_insert, length_replicate.
  - intros j Hj. by apply one_hot_row_lookup.
Qed.

Lemma init_label_matrix_one_hot_witness :
  Forall (λ c, 0 ≤ c < Z.of_nat 3) [0; 2; 1; 2] ∧
  ∃ t, init (SingleLabel [0; 2; 1; 2] 3 [(0, 1); (2, 3)]) 8 5 = Ok t ∧
    num_nodes t = length [0; 2; 1; 2] ∧ num_classes t = 3%nat ∧
    length (label_matrix t) = num_nodes t ∧
    ∀ i c, [0; 2; 1; 2] !! i = Some c →
      ∃ row, label_matrix t !! i = Some row ∧ length row = 3%nat ∧
        ∀ j, (j < 3)%nat →
          row !! j = Some (if decide (Z.of_nat j = c) then 1 else 0).
Proof.
  assert (Forall (λ c, 0 ≤ c < Z.of_nat 3) [0; 2; 1; 2]) as Hy
    by (repeat constructor; simpl; lia).
  split; [exact Hy|].
  apply (init_label_matrix_one_hot [0; 2; 1; 2] 3 [(0, 1); (2, 3)] 8 5 Hy).
Defined.

(** ** Embedding alignment *)

Lemma foldM_app {A S} (f : S → A → result S) (s : S) (l1 l2 : list A) :
  foldM f s (l1 ++ l2) = foldM f s l1 ≫= λ s', foldM f s' l2.
Proof.
  revert s. induction l1 as [|x l1 IH]; intros s; simpl; [done|].
  destruct (f s x) as [s'|e]; simpl; [apply IH|done].
Qed.

Lemma enumerate_snoc {A} (l : list A) (x : A) :
  enumerate (l ++ [x]) = enumerate l ++ [(length l, x)].
Proof.
  unfold enumerate. rewrite length_app. simpl.
  rewrite seq_app, zip_with_app by (by rewrite length_seq). done.
Qed.

Lemma add_node_spec (nodes : list Z) (u : Z) :
  NoDup nodes → NoDup (add_node nodes u) ∧ ∀ w, w ∈ add_node nodes u ↔ w ∈ nodes ∨ w = u.
Proof.
  intros Hnd. unfold add_node. case_bool_decide as Hin.
  - split; [done|]. intros w. split; [by left|]. by intros [?| ->].
  - split.
    + apply NoDup_app. split_and!; [done| |apply NoDup_singleton].
      intros w Hw ->%list_elem_of_singleton. done.
    + intros w. rewrite elem_of_app, list_elem_of_singleton. done.
Qed.

Lemma graph_nodes_spec (edges : list (Z * Z)) :
  NoDup (graph_nodes edges) ∧
  ∀ w, w ∈ graph_nodes edges ↔ ∃ e, e ∈ edges ∧ (w = e.1 ∨ w = e.2).
Proof.
  unfold graph_nodes.
  assert (∀ acc, NoDup acc →
            NoDup (foldl add_edge acc edges) ∧
            ∀ w, w ∈ foldl add_edge acc edges ↔
                 w ∈ acc ∨ ∃ e, e ∈ edges ∧ (w = e.1 ∨ w = e.2)) as Hgen.
  { induction edges as [|e edges IH]; intros acc Hacc; simpl.
    - split; [done|]. intros w. split; [by left|].
      intros [?|(e & He & _)]; [done|]. by apply elem_of_nil in He.
    - destruct (add_node_spec acc e.1 Hacc) as [Hnd1 Hin1].
      destruct (add_node_spec _ e.2 Hnd1) as [Hnd2 Hin2].
      destruct (IH (add_edge acc e) Hnd2) as [Hnd Hin].
      split; [done|]. intros w. rewrite Hin. unfold add_edge.
      rewrite Hin2, Hin1. split.
      + intros [[[?| ->]| ->]|(e' & He' & Hw)]; [by left|right..].
        * exists e. split; [by left|by left].
        * exists e. split; [by left|by right].
        * exists e'. split; [by right|done].
      + intros [?|(e' & [->|He']%elem_of_cons & Hw)].
        * by left; left; left.
        * left. destruct Hw as [->| ->]; [left; by right|by right].
        * right. by exists e'. }
  destruct (Hgen [] (NoDup_nil_2)) as [Hnd Hin]. split; [done|].
  intros w. rewrite Hin. split; [|by right].
  intros [Hw|?]; [by apply elem_of_nil in Hw|done].
Qed.

Lemma align_loop (n_nodes hidden : nat) (embeddings : matrix Q) (nodes : list Z) :
  NoDup nodes → Forall (λ u, 0 ≤ u < Z.of_nat n_nodes) nodes →
  (length nodes ≤ length embeddings)%nat →
  Forall (λ v, length v = hidden) embeddings →
  ∃ F, align_embeddings n_nodes hidden nodes embeddings = Ok F ∧
    length F = n_nodes ∧
    (∀ vid u, nodes !! vid = Some u → F !! Z.to_nat u = embeddings !! vid) ∧
    (∀ i, Z.of_nat i ∉ nodes → F !! i = zeros 0%Q n_nodes hidden !! i).
Proof.
  intros Hnd Hrange Hlen Hemb. unfold align_embeddings.
  induction nodes as [|u nodes IH] using rev_ind.
  - exists (zeros 0%Q n_nodes hidden). simpl. split_and!; try done.
    unfold zeros. by rewrite length_replicate.
  - apply NoDup_app in Hnd as (Hnd & Hfresh & _).
    apply Forall_app in Hrange as [Hrange Hu]. apply Forall_cons in Hu as [Hu _].
    rewrite length_app in Hlen. simpl in Hlen.
    destruct IH as (F & HF & HlenF & Hin & Hout); [done|done|lia|].
    destruct (lookup_lt_is_Some_2 embeddings (length nodes)) as [e He]; [lia|].
    assert (length e = hidden) as Hw.
    { rewrite Forall_forall in Hemb. apply Hemb. by eapply list_elem_of_lookup_2. }
    exists (<[Z.to_nat u := e]> F).
    rewrite enumerate_snoc, foldM_app, HF. simpl.
    unfold align_step. simpl. rewrite (getitem_nat _ _ _ He). simpl.
    rewrite <- (Z2Nat.id u) at 1 by lia.
    rewrite normalize_index_nat by lia. simpl.
    unfold broadcast_row. rewrite Hw, Nat.eqb_refl. simpl.
    split_and!; [done|by rewrite length_insert| |].
    + intros vid w Hvid. apply lookup_app_Some in Hvid as [Hvid|[Hge Hvid]].
      * assert (w ≠ u) as Hne.
        { intros ->. eapply Hfresh; [by eapply list_elem_of_lookup_2|].
          by apply list_elem_of_singleton. }
        rewrite list_lookup_insert_ne.
        -- by apply Hin.
        -- rewrite Forall_forall in Hrange.
           assert (0 ≤ w < Z.of_nat n_nodes)
             by (apply Hrange; by eapply list_elem_of_lookup_2). lia.
      * apply list_lookup_singleton_Some in Hvid as [Hz ->].
        replace vid with (length nodes) by lia.
        rewrite He. apply list_lookup_insert_eq. lia.
    + intros i Hi. rewrite elem_of_app, list_elem_of_singleton in Hi.
      rewrite list_lookup_insert_ne by (intros <-; apply Hi; right; lia).
      apply Hout. tauto.
Qed.

(** C8. When every endpoint of the edge list is a node index and the model
    returns one vector of width [hidden_size] per visited node, the
    alignment succeeds with a [num_nodes] x [hidden_size] matrix; the
    vector returned at position [vid] of the visitation order lands in the
    row of the node visited at [vid], whatever that order is; and a node
    that no edge touches is not visited and keeps its all-zero row. *)
Theorem align_embeddings_by_node (n_nodes hidden : nat) (edges : list (Z * Z))
    (embeddings : matrix Q) :
  Forall (λ e, 0 ≤ e.1 < Z.of_nat n_nodes ∧ 0 ≤ e.2 < Z.of_nat n_nodes) edges →
  length embeddings = length (graph_nodes edges) →
  Forall (λ v, length v = hidden) embeddings →
  ∃ F, align_embeddings n_nodes hidden (graph_nodes edges) embeddings = Ok F ∧
    length F = n_nodes ∧ Forall (λ row, length row = hidden) F ∧
    (∀ vid u, graph_nodes edges !! vid = Some u →
       F !! Z.to_nat u = embeddings !! vid) ∧
    (∀ i, (i < n_nodes)%nat →
       (∀ e, e ∈ edges → e.1 ≠ Z.of_nat i ∧ e.2 ≠ Z.of_nat i) →
       (Z.of_nat i ∉ graph_nodes edges) ∧ F !! i = Some (replicate hidden 0%Q)).
Proof.
  intros Hedges Hlen Hemb.
  destruct (graph_nodes_spec edges) as [Hnd Hin].
  assert (Forall (λ u, 0 ≤ u < Z.of_nat n_nodes) (graph_nodes edges)) as Hrange.
  { apply Forall_forall. intros u (e & He & Hu)%Hin.
    rewrite Forall_forall in Hedges. destruct (Hedges e He).
    by destruct Hu as [-> | ->]. }
  destruct (align_loop n_nodes hidden embeddings (graph_nodes edges))
    as (F & HF & HlenF & Hvisited & Hother); [done|done|lia|done|].
  exists F. split_and!; [done|done| |done|].
  - apply Forall_lookup. intros i row Hrow.
    destruct (decide (Z.of_nat i ∈ graph_nodes edges)) as [Hi|Hi].
    + apply list_elem_of_lookup in Hi as [vid Hvid].
      pose proof (Hvisited vid _ Hvid) as Heq. rewrite Nat2Z.id, Hrow in Heq.
      rewrite Forall_forall in Hemb. apply Hemb.
      eapply list_elem_of_lookup_2. by symmetry.
    + rewrite (Hother i Hi) in Hrow. unfold zeros in Hrow.
      apply lookup_replicate in Hrow as [-> _]. by rewrite length_replicate.
  - intros i Hi Hfree.
    assert (Z.of_nat i ∉ graph_nodes edges) as Hnot.
    { intros (e & He & Hu)%Hin. destruct (Hfree e He). by destruct Hu. }
    split; [done|]. rewrite (Hother i Hnot).
    unfold zeros. by apply lookup_replicate_2.
Qed.

Lemma align_embeddings_by_node_witness :
  Forall (λ e : Z * Z, 0 ≤ e.1 < Z.of_nat 5 ∧ 0 ≤ e.2 < Z.of_nat 5)
         [(3, 1); (1, 0); (3, 0)] ∧
  length [[31; 32]; [11; 12]; [1; 2]]%Q = length (graph_nodes [(3, 1); (1, 0); (3, 0)]) ∧
  Forall (λ v : list Q, length v = 2%nat) [[31; 32]; [11; 12]; [1; 2]]%Q ∧
  ∃ F, align_embeddings 5 2 (graph_nodes [(3, 1); (1, 0); (3, 0)])
                        [[31; 32]; [11; 12]; [1; 2]]%Q = Ok F ∧
    length F = 5%nat ∧ Forall (λ row, length row = 2%nat) F ∧
    (∀ vid u, graph_nodes [(3, 1); (1, 0); (3, 0)] !! vid = Some u →
       F !! Z.to_nat u = [[31; 32]; [11; 12]; [1; 2]]%Q !! vid) ∧
    (∀ i, (i < 5)%nat →
       (∀ e, e ∈ [(3, 1); (1, 0); (3, 0)] → e.1 ≠ Z.of_nat i ∧ e.2 ≠ Z.of_nat i) →
       (Z.of_nat i ∉ graph_nodes [(3, 1); (1, 0); (3, 0)]) ∧
       F !! i = Some (replicate 2 0%Q)).
Proof.
  assert (Forall (λ e : Z * Z, 0 ≤ e.1 < Z.of_nat 5 ∧ 0 ≤ e.2 < Z.of_nat 5)
                 [(3, 1); (1, 0); (3, 0)]) as Hedges
    by (repeat constructor; simpl; lia).
  assert (Forall (λ v : list Q, length v = 2%nat) [[31; 32]; [11; 12]; [1; 2]]%Q)
    as Hemb by (repeat constructor).
  split; [exact Hedges|]. split; [reflexivity|]. split; [exact Hemb|].
  apply (align_embeddings_by_node 5 2 [(3, 1); (1, 0); (3, 0)]
           [[31; 32]; [11; 12]; [1; 2]]%Q Hedges eq_refl Hemb).
Defined.

(** ** Shuffling *)

Section Reindex.
Context {A : Type} (d : A).

Lemma take_indices_fmap (l : list A) (idx : list nat) :
  Forall (λ i, (i < length l)%nat) idx →
  take_indices l idx = Ok ((λ i, default d (l !! i)) <$> idx).
Proof.
  intros Hidx. apply mapM_r_ok.
  eapply Forall_impl; [exact Hidx|]. intros i Hi. simpl in *.
  destruct (lookup_lt_is_Some_2 l i Hi) as [x Hx].
  rewrite Hx. by apply getitem_nat.
Qed.

Lemma fmap_lookup_seq (l : list A) :
  (λ i, default d (l !! i)) <$> seq 0 (length l) = l.
Proof.
  apply list_eq. intros i. rewrite list_lookup_fmap.
  destruct (decide (i < length l)%nat) as [Hi|Hi].
  - rewrite lookup_seq_lt by done. simpl.
    destruct (lookup_lt_is_Some_2 l i Hi) as [x Hx]. by rewrite Hx.
  - rewrite lookup_seq_ge, lookup_ge_None_2 by lia. done.
Qed.
End Reindex.

Lemma zip_fmap_same {A B C} (f : A → B) (g : A → C) (l : list A) :
  zip (f <$> l) (g <$> l) = (λ a, (f a, g a)) <$> l.
Proof. induction l as [|a l IH]; csimpl; [done|]. by rewrite IH. Qed.

Lemma zip_fmap_r_same {A B} (g : A → B) (l : list A) :
  zip l (g <$> l) = (λ a, (a, g a)) <$> l.
Proof. induction l as [|a l IH]; csimpl; [done|]. by rewrite IH. Qed.

Lemma insert_sorted_fmap {A B} (lebA : A → A → bool) (lebB : B → B → bool)
    (f : A → B) (x : A) (l : list A) :
  (∀ a b, lebB (f a) (f b) = lebA a b) →
  insert_sorted lebB (f x) (f <$> l) = f <$> insert_sorted lebA x l.
Proof.
  intros Hf. induction l as [|y l IH]; csimpl; [done|].
  rewrite Hf. destruct (lebA x y); csimpl; [done|]. by rewrite IH.
Qed.

Lemma isort_fmap {A B} (lebA : A → A → bool) (lebB : B → B → bool)
    (f : A → B) (l : list A) :
  (∀ a b, lebB (f a) (f b) = lebA a b) →
  isort lebB (f <$> l) = f <$> isort lebA l.
Proof.
  intros Hf. induction l as [|x l IH]; csimpl; [done|].
  rewrite IH. by apply insert_sorted_fmap.
Qed.

Lemma isort_nat_perm_seq (idx : list nat) (n : nat) :
  idx ≡ₚ seq 0 n → isort Nat.leb idx = seq 0 n.
Proof.
  intros Hperm.
  apply (StronglySorted_unique le).
  - rewrite <- (list_fmap_id (isort Nat.leb idx)).
    apply (StronglySorted_fmap id (λ a b, Nat.leb a b = true) le).
    + intros a b. apply Nat.leb_le.
    + apply isort_sorted.
      * intros a b. rewrite !Nat.leb_le. lia.
      * intros a b c. rewrite !Nat.leb_le. lia.
  - apply StronglySorted_seq.
  - by rewrite isort_perm.
Qed.

(** Sorting the shuffled rows by the index they came from restores the
    original order. *)
Lemma unshuffle_reindex {A} (d : A) (l : list A) (idx : list nat) :
  idx ≡ₚ seq 0 (length l) →
  unshuffle idx ((λ i, default d (l !! i)) <$> idx) = l.
Proof.
  intros Hperm. unfold unshuffle.
  rewrite zip_fmap_r_same.
  rewrite (isort_fmap Nat.leb) by done.
  rewrite (isort_nat_perm_seq idx (length l)) by done.
  rewrite <- list_fmap_compose. apply fmap_lookup_seq.
Qed.

Section ShuffleFacts.
Context `{RandomStateSpec}.

Lemma rng_permutation_lt (g : rng) (n : nat) :
  Forall (λ i, (i < n)%nat) (rng_permutation g n).1.
Proof.
  apply Forall_forall. intros i Hi.
  rewrite (rng_permutation_perm g n), elem_of_seq in Hi. lia.
Qed.

Lemma skshuffle_ok (X : matrix Q) (y : matrix Z) (g : rng) :
  length X = length y →
  ∃ s, skshuffle X y g = Ok (s, (rng_permutation g (length X)).2) ∧
       shuffled_by X y s (rng_permutation g (length X)).1.
Proof.
  intros Hlen. unfold skshuffle. rewrite Hlen, Nat.eqb_refl. simpl.
  rewrite <- Hlen.
  pose proof (rng_permutation_perm g (length X)) as Hperm.
  pose proof (rng_permutation_lt g (length X)) as Hlt.
  destruct (rng_permutation g (length X)) as [idx g']. simpl in *.
  rewrite (take_indices_fmap [] X idx Hlt). simpl.
  rewrite (take_indices_fmap [] y idx) by (by rewrite <- Hlen). simpl.
  eexists. split; [done|]. unfold shuffled_by. simpl.
  split_and!; [done| | | | |].
  - by apply take_indices_fmap.
  - apply take_indices_fmap. by rewrite <- Hlen.
  - rewrite zip_fmap_same, Hperm, <- zip_fmap_same.
    rewrite fmap_lookup_seq. rewrite Hlen at 1. by rewrite fmap_lookup_seq.
  - by apply unshuffle_reindex.
  - apply unshuffle_reindex. by rewrite <- Hlen.
Qed.

Lemma make_shuffles_loop (X : matrix Q) (y : matrix Z) :
  length X = length y →
  ∀ (l : list nat) (acc : list (matrix Q * matrix Z)) (g : rng),
    Forall (λ s, ∃ indices, shuffled_by X y s indices) acc →
    ∃ shuffles g',
      foldM (λ st _, let '(shuffles, g) := st in
                     '(s, g') ← skshuffle X y g;
                     Ok (shuffles ++ [s], g'))
            (acc, g) l = Ok (shuffles, g') ∧
      length shuffles = (length acc + length l)%nat ∧
      Forall (λ s, ∃ indices, shuffled_by X y s indices) shuffles.
Proof.
  intros Hlen. induction l as [|x l IH]; intros acc g Hacc; simpl.
  - exists acc, g. split_and!; [done|lia|done].
  - destruct (skshuffle_ok X y g Hlen) as (s & -> & Hs). simpl.
    destruct (IH (acc ++ [s]) (rng_permutation g (length X)).2)
      as (shuffles & g' & -> & Hn & Hall).
    { apply Forall_app. split; [done|]. apply Forall_singleton. eauto. }
    exists shuffles, g'. split_and!; [done| |done].
    rewrite Hn, length_app. simpl. lia.
Qed.
End ShuffleFacts.

(** C6. For feature and label matrices with the same number of rows, the
    shuffle loop succeeds and yields [num_shuffle] shuffles.  Each of them
    re-indexes both matrices by one and the same ordering of the row
    numbers; its (feature row, label row) pairs are a permutation of the
    original pairs; and sorting its rows by the row number they came from
    gives back the two original matrices. *)
Theorem shuffles_preserve_row_pairs `{RandomStateSpec} (X : matrix Q)
    (y : matrix Z) (n_shuffle : Z) (g : rng) :
  length X = length y →
  ∃ shuffles g', make_shuffles X y n_shuffle g = Ok (shuffles, g') ∧
    length shuffles = Z.to_nat n_shuffle ∧
    Forall (λ s, ∃ indices,
              indices ≡ₚ seq 0 (length X) ∧
              take_indices X indices = Ok s.1 ∧
              take_indices y indices = Ok s.2 ∧
              zip s.1 s.2 ≡ₚ zip X y ∧
              unshuffle indices s.1 = X ∧
              unshuffle indices s.2 = y) shuffles.
Proof.
  intros Hlen. unfold make_shuffles.
  destruct (make_shuffles_loop X y Hlen (seq 0 (Z.to_nat n_shuffle)) [] g)
    as (shuffles & g' & Heq & Hn & Hall); [done|].
  exists shuffles, g'. split_and!; [done| |done].
  by rewrite Hn, length_seq.
Qed.

Lemma shuffles_preserve_row_pairs_witness :
  length separable_features = length separable_labels ∧
  ∃ shuffles g',
    @make_shuffles rotating_state separable_features separable_labels 2 7
      = Ok (shuffles, g') ∧
    length shuffles = Z.to_nat 2 ∧
    Forall (λ s, ∃ indices,
              indices ≡ₚ seq 0 (length separable_features) ∧
              take_indices separable_features indices = Ok s.1 ∧
              take_indices separable_labels indices = Ok s.2 ∧
              zip s.1 s.2 ≡ₚ zip separable_features separable_labels ∧
              unshuffle indices s.1 = separable_features ∧
              unshuffle indices s.2 = separable_labels) shuffles.
Proof.
  split; [reflexivity|].
  apply (@shuffles_preserve_row_pairs rotating_state rotating_state_spec
           separable_features separable_labels 2 7).
  reflexivity.
Defined.

(** ** The result table *)








Lemma dict_snoc (items : list (string * Q)) (k : string) (v : Q) :
  dict (items ++ [(k, v)]) = <[k := v]> (dict items).
Proof. unfold dict. by rewrite foldl_app. Qed.




(** ** The score loop and its summary *)

Section DriverFacts.
Context `{Numpy} `{Estimator} `{RandomState} `{Metric}.


Lemma score_loop_nil (self : task) (percents : list float) :
  score_loop self percents [] = Ok [].
Proof.
  unfold score_loop. generalize (@nil (float * list Q)).
  induction percents as [|tp percents IH]; intros acc; simpl; [done|apply IH].
Qed.


End DriverFacts.





(** ** Binary64 multiplication by an integer *)

Ltac hide_pow :=
  repeat match goal with
         | |- context [2 ^ ?e] =>
             let x := fresh "pw" in set (x := 2 ^ e) in *; clearbody x
         | H : context [2 ^ ?e] |- _ =>
             let x := fresh "pw" in set (x := 2 ^ e) in *; clearbody x
         end.

Lemma digits2_pos_size (p : positive) : digits2_pos p = Pos.size p.
Proof. induction p as [p IH|p IH|]; simpl; by rewrite ?IH. Qed.

Lemma digits2_pos_bounds (p : positive) :
  2 ^ (Z.pos (digits2_pos p) - 1) ≤ Z.pos p < 2 ^ Z.pos (digits2_pos p).
Proof.
  induction p as [p IH|p IH|]; simpl digits2_pos.
  - rewrite Pos2Z.inj_succ. change (Z.pos p~1) with (2 * Z.pos p + 1).
    replace (Z.succ (Z.pos (digits2_pos p)) - 1) with (Z.succ (Z.pos (digits2_pos p) - 1)) by lia.
    rewrite !Z.pow_succ_r by lia. hide_pow. lia.
  - rewrite Pos2Z.inj_succ. change (Z.pos p~0) with (2 * Z.pos p).
    replace (Z.succ (Z.pos (digits2_pos p)) - 1) with (Z.succ (Z.pos (digits2_pos p) - 1)) by lia.
    rewrite !Z.pow_succ_r by lia. hide_pow. lia.
  - simpl. lia.
Qed.

Lemma digits2_pos_unique (p : positive) (k : Z) :
  2 ^ (k - 1) ≤ Z.pos p < 2 ^ k → Z.pos (digits2_pos p) = k.
Proof.
  intros [Hlo Hhi]. pose proof (digits2_pos_bounds p) as [Hlo' Hhi'].
  assert (0 < k).
  { destruct (Z.lt_ge_cases 0 k); [done|].
    assert (2 ^ k ≤ 2 ^ 0) by (destruct (Z.eq_dec k 0) as [->|]; [done|rewrite Z.pow_neg_r by lia; simpl; lia]).
    change (2 ^ 0) with 1 in *. hide_pow. lia. }
  destruct (Z.lt_trichotomy (Z.pos (digits2_pos p)) k) as [Hlt|[?|Hgt]]; [|done|].
  - assert (2 ^ Z.pos (digits2_pos p) ≤ 2 ^ (k - 1)) by (apply Z.pow_le_mono_r; lia).
    hide_pow. lia.
  - assert (2 ^ k ≤ 2 ^ (Z.pos (digits2_pos p) - 1)) by (apply Z.pow_le_mono_r; lia).
    hide_pow. lia.
Qed.

Lemma shr_1_m (mrs : shr_record) :
  0 ≤ shr_m mrs → shr_m (shr_1 mrs) = shr_m mrs / 2.
Proof.
  destruct mrs as [m r s]. simpl. intros Hm.
  destruct m as [|[p|p|]|p]; simpl; try done.
  - change (Z.pos p~1) with (2 * Z.pos p + 1).
    apply (Z.div_unique _ _ _ 1); lia.
  - change (Z.pos p~0) with (2 * Z.pos p).
    apply (Z.div_unique _ _ _ 0); lia.
Qed.

Lemma shr_m_iter (p : positive) (mrs : shr_record) :
  0 ≤ shr_m mrs → shr_m (SpecFloat.iter_pos shr_1 p mrs) = shr_m mrs / 2 ^ Z.pos p.
Proof.
  assert (∀ mrs, 0 ≤ shr_m mrs → 0 ≤ shr_m (shr_1 mrs)) as Hnn.
  { intros x Hx. rewrite shr_1_m by done. by apply Z.div_pos. }
  revert mrs. induction p as [p IH|p IH|]; intros mrs Hm; simpl SpecFloat.iter_pos.
  - rewrite IH, IH, shr_1_m; try done.
    + rewrite !Z.div_div by (try apply Z.pow_pos_nonneg; lia).
      f_equal. change (Z.pos p~1) with (2 * Z.pos p + 1).
      rewrite <- (Z.pow_1_r 2) at 1. rewrite <- !Z.pow_add_r by lia. f_equal. lia.
    + by apply Hnn.
    + rewrite IH by (by apply Hnn). apply Z.div_pos; [by apply Hnn|]. apply Z.pow_pos_nonneg; lia.
  - rewrite IH, IH; try done.
    + rewrite !Z.div_div by (try apply Z.pow_pos_nonneg; lia).
      f_equal. change (Z.pos p~0) with (2 * Z.pos p).
      rewrite <- Z.pow_add_r by lia. f_equal. lia.
    + rewrite IH by done. apply Z.div_pos; [done|]. apply Z.pow_pos_nonneg; lia.
  - by apply shr_1_m.
Qed.

Lemma round_nearest_even_bounds (m : Z) (l : location) :
  round_nearest_even m l = m ∨ round_nearest_even m l = m + 1.
Proof.
  destruct l as [|[]]; simpl; auto. destruct (Z.even m); auto.
Qed.

Lemma shr_fexp_exact (m : positive) (e : Z) :
  Z.pos (digits2_pos m) = 53 → -1074 ≤ e →
  shr_fexp 53 1024 (Z.pos m) e loc_Exact
  = ({| shr_m := Z.pos m; shr_r := false; shr_s := false |}, e).
Proof.
  intros Hd He. unfold shr_fexp, fexp, emin. cbn [Zdigits2]. rewrite Hd.
  match goal with |- shr _ _ ?n = _ => replace n with 0 by lia end.
  reflexivity.
Qed.

Lemma shr_fexp_shift (m : positive) (e : Z) (s : positive) :
  Z.pos (digits2_pos m) = 53 + Z.pos s → -1074 ≤ e + Z.pos s →
  shr_fexp 53 1024 (Z.pos m) e loc_Exact
  = (SpecFloat.iter_pos shr_1 s {| shr_m := Z.pos m; shr_r := false; shr_s := false |},
     e + Z.pos s).
Proof.
  intros Hd He. unfold shr_fexp, fexp, emin. cbn [Zdigits2]. rewrite Hd.
  match goal with |- shr _ _ ?n = _ => replace n with (Z.pos s) by lia end.
  reflexivity.
Qed.

Lemma binary_round_aux_exact (m : positive) (e : Z) :
  Z.pos (digits2_pos m) = 53 → -1074 ≤ e ≤ 971 →
  binary_round_aux 53 1024 false (Z.pos m) e loc_Exact = S754_finite false m e.
Proof.
  intros Hd He. unfold binary_round_aux.
  rewrite shr_fexp_exact by (done || lia). cbn [shr_m loc_of_shr_record round_nearest_even].
  rewrite shr_fexp_exact by (done || lia). cbn [shr_m].
  destruct (Z.leb_spec e (1024 - 53)); [done|lia].
Qed.

Lemma binary_round_aux_shift (m : positive) (e : Z) (s : positive) :
  Z.pos (digits2_pos m) = 53 + Z.pos s →
  -1074 ≤ e + Z.pos s → e + Z.pos s + 1 ≤ 971 →
  ∃ (m' : positive) (e' q : Z),
    binary_round_aux 53 1024 false (Z.pos m) e loc_Exact = S754_finite false m' e' ∧
    (q = Z.pos m / 2 ^ Z.pos s ∨ q = Z.pos m / 2 ^ Z.pos s + 1) ∧
    ((e' = e + Z.pos s ∧ Z.pos m' = q) ∨ (e' = e + Z.pos s + 1 ∧ 2 * Z.pos m' = q)).
Proof.
  intros Hd Hlo Hhi. unfold binary_round_aux.
  rewrite (shr_fexp_shift m e s) by done.
  set (mrs := SpecFloat.iter_pos shr_1 s _).
  assert (shr_m mrs = Z.pos m / 2 ^ Z.pos s) as Hq0
    by (unfold mrs; by rewrite shr_m_iter).
  assert (2 ^ 52 ≤ shr_m mrs < 2 ^ 53) as Hrange.
  { rewrite Hq0. pose proof (digits2_pos_bounds m) as [Hl Hu]. rewrite Hd in Hl, Hu.
    replace (53 + Z.pos s - 1) with (52 + Z.pos s) in Hl by lia.
    rewrite Z.pow_add_r in Hl, Hu by lia.
    assert (0 < 2 ^ Z.pos s) by (apply Z.pow_pos_nonneg; lia).
    split.
    - apply Z.div_le_lower_bound; [done|]. lia.
    - apply Z.div_lt_upper_bound; [done|]. lia. }
  set (q := round_nearest_even (shr_m mrs) (loc_of_shr_record mrs)).
  assert (q = shr_m mrs ∨ q = shr_m mrs + 1) as Hq by apply round_nearest_even_bounds.
  destruct q as [|qp|qp] eqn:Hqp; [change (2 ^ 52) with 4503599627370496 in Hrange; lia| |lia].
  destruct (Z.eq_dec (Z.pos qp) (2 ^ 53)) as [Htop|Hntop].
  - assert (qp = 9007199254740992%positive) as ->
      by (change (2 ^ 53) with 9007199254740992 in Htop; lia).
    rewrite (shr_fexp_shift _ _ 1) by (simpl; lia). simpl SpecFloat.iter_pos.
    cbn [shr_1 shr_m].
    destruct (Z.leb_spec (e + Z.pos s + 1) (1024 - 53)); [|lia].
    exists 4503599627370496%positive, (e + Z.pos s + 1), 9007199254740992.
    split; [done|]. split; [by rewrite <- Hq0|]. right. done.
  - assert (Z.pos (digits2_pos qp) = 53) as Hd'.
    { apply digits2_pos_unique. change (53 - 1) with 52. lia. }
    rewrite shr_fexp_exact by done. cbn [shr_m].
    destruct (Z.leb_spec (e + Z.pos s) (1024 - 53)); [|lia].
    exists qp, (e + Z.pos s), (Z.pos qp).
    split; [done|]. split; [by rewrite <- Hq0|]. left. done.
Qed.

Lemma pos_iter_xO (n k : positive) :
  Z.pos (Pos.iter xO n k) = Z.pos n * 2 ^ Z.pos k.
Proof.
  induction k as [|k IH] using Pos.peano_ind.
  - simpl. lia.
  - rewrite Pos.iter_succ, Pos2Z.inj_succ, Z.pow_succ_r by lia.
    change (Z.pos (Pos.iter xO n k)~0) with (2 * Z.pos (Pos.iter xO n k)).
    rewrite IH. lia.
Qed.

Lemma float_of_int_pos (n k : positive) :
  Z.pos (digits2_pos n) + Z.pos k = 53 →
  float_of_int (Z.pos n)
  = Ok (S754_finite false (Pos.iter xO n k) (- Z.pos k)).
Proof.
  intros Hd. unfold float_of_int, binary_normalize, binary_round, shl_align, fexp, emin.
  match goal with
  | |- context [match ?x - 0 with _ => _ end] =>
      replace (x - 0) with (Z.neg k) by lia
  end.
  match goal with
  | |- context [binary_round_aux _ _ _ _ ?x _] =>
      replace x with (- Z.pos k) by lia
  end.
  rewrite binary_round_aux_exact; [done| |lia].
  apply digits2_pos_unique. rewrite pos_iter_xO.
  pose proof (digits2_pos_bounds n) as [Hl Hu].
  replace 53 with (Z.pos (digits2_pos n) + Z.pos k) by lia.
  replace (Z.pos (digits2_pos n) + Z.pos k - 1)
    with (Z.pos (digits2_pos n) - 1 + Z.pos k) by lia.
  rewrite !Z.pow_add_r by lia.
  assert (0 < 2 ^ Z.pos k) by (apply Z.pow_pos_nonneg; lia).
  split; [apply Z.mul_le_mono_nonneg_r|apply Z.mul_lt_mono_pos_r]; lia.
Qed.

Lemma pow2_pos (e : Z) : 0 ≤ e → 0 < 2 ^ e.
Proof. intros. apply Z.pow_pos_nonneg; lia. Qed.

Lemma pow2_lt_inv (a b : Z) : 0 ≤ b → 2 ^ a < 2 ^ b → a < b.
Proof.
  intros Hb Hlt. destruct (Z.lt_ge_cases a b) as [|Hge]; [done|].
  assert (2 ^ b ≤ 2 ^ a) by (apply Z.pow_le_mono_r; lia). lia.
Qed.

Lemma training_size_value (F : positive) (ef : Z) (n : positive) :
  Z.pos (digits2_pos F) = 53 → -56 ≤ ef ≤ -53 → Z.pos n < 2 ^ 48 →
  ∃ V j, training_size (S754_finite false F ef) (Pos.to_nat n) = Ok (V / 2 ^ (- ef)) ∧
         0 ≤ j ∧ 2 ^ j < 2 * Z.pos n ∧
         Z.pos F * Z.pos n - 2 ^ j < V ∧ V ≤ Z.pos F * Z.pos n + 2 ^ j.
Proof.
  intros HF Hef Hn.
  pose proof (digits2_pos_bounds n) as [Hnl Hnu].
  pose proof (digits2_pos_bounds F) as [HFl HFu]. rewrite HF in HFl, HFu.
  set (d := Z.pos (digits2_pos n)) in *.
  assert (1 ≤ d ≤ 48) as Hd.
  { split; [unfold d; lia|].
    assert (d - 1 < 48); [|lia]. apply pow2_lt_inv; lia. }
  set (k := Z.to_pos (53 - d)).
  assert (Z.pos k = 53 - d) as Hk by (unfold k; rewrite Z2Pos.id; lia).
  unfold training_size, float_mul_int. rewrite positive_nat_Z.
  rewrite (float_of_int_pos n k) by (fold d; lia).
  cbn [mbind result_bind rbind]. unfold SFmul. cbn [xorb].
  set (N := Pos.iter xO n k).
  assert (Z.pos N = Z.pos n * 2 ^ Z.pos k) as HN by apply pos_iter_xO.
  set (M := (F * N)%positive).
  assert (Z.pos M = Z.pos F * Z.pos n * 2 ^ Z.pos k) as HM
    by (unfold M; rewrite Pos2Z.inj_mul, HN; lia).
  pose proof (digits2_pos_bounds M) as [HMl HMu].
  set (D := Z.pos (digits2_pos M)) in *.
  assert (0 < 2 ^ Z.pos k) as Hpk by (apply pow2_pos; lia).
  assert (2 ^ (d - 1) * 2 ^ Z.pos k = 2 ^ 52) as Hp52
    by (rewrite <- Z.pow_add_r by lia; f_equal; lia).
  assert (2 ^ d * 2 ^ Z.pos k = 2 ^ 53) as Hp53
    by (rewrite <- Z.pow_add_r by lia; f_equal; lia).
  assert (2 ^ 104 ≤ Z.pos M < 2 ^ 106) as HMr.
  { rewrite HM. change (2 ^ 104) with (2 ^ 52 * 2 ^ 52).
    change (2 ^ 106) with (2 ^ 53 * 2 ^ 53).
    rewrite <- Z.mul_assoc. split.
    - apply Z.mul_le_mono_nonneg; [done|done|done|]. rewrite <- Hp52.
      apply Z.mul_le_mono_nonneg_r; lia.
    - apply Z.mul_lt_mono_nonneg; [lia|lia| |]; [nia|]. rewrite <- Hp53.
      apply Z.mul_lt_mono_pos_r; lia. }
  assert (105 ≤ D ≤ 106) as HD.
  { split.
    - assert (104 < D); [|lia]. apply pow2_lt_inv; [unfold D; lia|]. lia.
    - assert (D - 1 < 106); [|lia]. apply pow2_lt_inv; lia. }
  set (s := Z.to_pos (D - 53)).
  assert (Z.pos s = D - 53) as Hs by (unfold s; rewrite Z2Pos.id; lia).
  destruct (binary_round_aux_shift M (ef + - Z.pos k) s)
    as (m' & e' & q & Heq & Hq & He'); [fold D; lia|lia|lia|].
  rewrite Heq. cbn [int_of_float cond_Zopp].
  set (j := D + d - 106).
  assert (0 ≤ j) as Hj by (unfold j; lia).
  assert (0 < 2 ^ j) as Hpj by (by apply pow2_pos).
  exists (q * 2 ^ j), j.
  assert (2 ^ Z.pos s = 2 ^ j * 2 ^ Z.pos k) as Hsplit
    by (rewrite <- Z.pow_add_r by lia; f_equal; lia).
  assert (Z.pos M / 2 ^ Z.pos s = Z.pos F * Z.pos n / 2 ^ j) as Hq0.
  { rewrite HM, Hsplit. apply Z.div_mul_cancel_r; lia. }
  rewrite Hq0 in Hq.
  pose proof (Z.mul_div_le (Z.pos F * Z.pos n) (2 ^ j) Hpj) as Hlow.
  pose proof (Z.mul_succ_div_gt (Z.pos F * Z.pos n) (2 ^ j) Hpj) as Hupp.
  split_and!.
  - f_equal. destruct (Z.leb_spec 0 e') as [Hpos|Hneg]; [lia|].
    destruct He' as [[-> Hm']|[-> Hm']].
    + rewrite Hm'.
      replace (2 ^ (- ef)) with (2 ^ (- (ef + - Z.pos k + Z.pos s)) * 2 ^ j)
        by (rewrite <- Z.pow_add_r by lia; f_equal; lia).
      symmetry. apply Z.div_mul_cancel_r; [|lia].
      apply Z.neq_sym, Z.lt_neq, pow2_pos. lia.
    + rewrite <- Hm'.
      replace (2 ^ (- ef)) with (2 ^ (- (ef + - Z.pos k + Z.pos s + 1)) * (2 * 2 ^ j)).
      * replace (2 * Z.pos m' * 2 ^ j) with (Z.pos m' * (2 * 2 ^ j)) by lia.
        symmetry. apply Z.div_mul_cancel_r; [|lia].
        apply Z.neq_sym, Z.lt_neq, pow2_pos. lia.
      * rewrite <- Z.pow_succ_r, <- Z.pow_add_r by lia. f_equal. lia.
  - done.
  - assert (2 ^ (D - 1) = 2 ^ j * 2 ^ 52 * 2 ^ Z.pos k) as HDsplit.
    { rewrite <- !Z.pow_add_r by lia. f_equal. lia. }
    rewrite HDsplit, HM in HMl.
    assert (2 ^ j * 2 ^ 52 ≤ Z.pos F * Z.pos n) as Hle
      by (apply (Z.mul_le_mono_pos_r _ _ (2 ^ Z.pos k)); lia).
    nia.
  - destruct Hq as [-> | ->]; nia.
  - destruct Hq as [-> | ->]; nia.
Qed.

Lemma training_percent_literal_facts (q : Q) :
  q ∈ training_percent_literals →
  ∃ (F : positive) (ef c : Z),
    float_of_literal q = S754_finite false F ef ∧
    Z.pos (digits2_pos F) = 53 ∧ -56 ≤ ef ≤ -53 ∧
    Qden q = 10%positive ∧ 1 ≤ Qnum q ≤ 9 ∧
    10 * Z.pos F = Qnum q * 2 ^ (- ef) + c ∧ -5 ≤ c ≤ 5.
Proof.
  unfold training_percent_literals. intros Hq.
  repeat (apply elem_of_cons in Hq as [->|Hq]);
    [..|by apply elem_of_nil in Hq].
  - exists 7205759403792794%positive, (-56), 4. by vm_compute.
  - exists 5404319552844595%positive, (-54), (-2). by vm_compute.
  - exists 4503599627370496%positive, (-53), 0. by vm_compute.
  - exists 6305039478318694%positive, (-53), (-4). by vm_compute.
  - exists 8106479329266893%positive, (-53), 2. by vm_compute.
Qed.

Lemma exact_floor_tenths (q : Q) (n : nat) :
  Qden q = 10%positive → exact_floor q n = Qnum q * Z.of_nat n / 10.
Proof.
  intros Hden. unfold exact_floor. destruct q as [a b]. simpl in *. by subst b.
Qed.

(** The training size lies within one of the exact floor, never above it,
    and within the number of nodes. *)
Lemma training_size_near_exact_floor (q : Q) (n : nat) :
  q ∈ training_percent_literals → Z.of_nat n < 2 ^ 48 →
  ∃ t, training_size (float_of_literal q) n = Ok t ∧
       (t = exact_floor q n ∨ t = exact_floor q n - 1) ∧
       0 ≤ t ≤ Z.of_nat n.
Proof.
  intros Hq Hn.
  destruct (training_percent_literal_facts q Hq)
    as (F & ef & c & Hfl & HF & Hef & Hden & Hnum & Hten & Hc).
  rewrite (exact_floor_tenths q n Hden), Hfl.
  destruct n as [|n'].
  { exists 0. rewrite Z.mul_0_r.
    split; [by destruct Hef as [? ?]|]. split; [by left|done]. }
  change (Z.of_nat (S n')) with (Z.pos (Pos.of_succ_nat n')) in *.
  rewrite <- (SuccNat2Pos.id_succ n').
  set (p := Pos.of_succ_nat n') in *.
  destruct (training_size_value F ef p HF Hef Hn)
    as (V & j & -> & Hj & Hpj & HVl & HVu).
  pose proof (digits2_pos_bounds F) as [HFl _]. rewrite HF in HFl.
  change (2 ^ (53 - 1)) with 4503599627370496 in HFl.
  assert (2 ^ 53 ≤ 2 ^ (- ef)) as HW by (apply Z.pow_le_mono_r; lia).
  change (2 ^ 53) with 9007199254740992 in HW.
  change (2 ^ 48) with 281474976710656 in Hn.
  set (W := 2 ^ (- ef)) in *. set (P := 2 ^ j) in *.
  set (a := Qnum q * Z.pos p) in *.
  pose proof (Z.div_mod a 10 ltac:(lia)) as Hdm.
  pose proof (Z.mod_pos_bound a 10 ltac:(lia)) as Hr.
  set (m := a / 10) in *. set (r := a mod 10) in *.
  assert (10 * (Z.pos F * Z.pos p) = a * W + c * Z.pos p) as HFn
    by (unfold a; nia).
  assert (a ≤ 9 * Z.pos p) as Ha by (unfold a; nia).
  assert (0 ≤ a) as Ha0 by (unfold a; nia).
  assert ((m - 1) * W ≤ V) as Hlow by nia.
  assert (V < (m + 1) * W) as Hupp by nia.
  assert (m - 1 ≤ V / W) as Hge by (apply Z.div_le_lower_bound; lia).
  assert (V / W < m + 1) as Hlt by (apply Z.div_lt_upper_bound; lia).
  exists (V / W). split; [done|]. split; [fold a m; lia|].
  split; [|lia].
  apply Z.div_pos; [|lia].
  assert (2 * Z.pos p ≤ Z.pos F * Z.pos p) by nia. lia.
Qed.

(** C2, as the code has it.  [training_size] is
    [int(train_percent * num_nodes)] in binary64 arithmetic.  For each of
    the five fractions and fewer than 2^48 nodes it is the exact
    [floor(f * num_nodes)] or one less, and it lies between 0 and
    [num_nodes].  For matrices of [num_nodes] rows the train prefix and the
    test suffix then split the rows with no gap and no overlap: the prefix
    followed by the suffix is the whole matrix, the prefix has
    [training_size] rows, and [training_size] plus the number of test rows
    is [num_nodes]. *)
Theorem training_size_and_partition (q : Q) (n : nat)
    (shuf : list (list Q) * list (list Z)) :
  q ∈ training_percent_literals → Z.of_nat n < 2 ^ 48 →
  length shuf.1 = n → length shuf.2 = n →
  ∃ t, training_size (float_of_literal q) n = Ok t ∧
       (t = exact_floor q n ∨ t = exact_floor q n - 1) ∧
       0 ≤ t ≤ Z.of_nat n ∧
       X_train (split_at t shuf) ++ X_test (split_at t shuf) = shuf.1 ∧
       y_train (split_at t shuf) ++ y_test (split_at t shuf) = shuf.2 ∧
       Z.of_nat (length (X_train (split_at t shuf))) = t ∧
       Z.of_nat (length (y_train (split_at t shuf))) = t ∧
       t + Z.of_nat (length (X_test (split_at t shuf))) = Z.of_nat n ∧
       t + Z.of_nat (length (y_test (split_at t shuf))) = Z.of_nat n.
Proof.
  intros Hq Hn HX Hy.
  destruct (training_size_near_exact_floor q n Hq Hn) as (t & Ht & Hnear & Hrange).
  exists t. split; [done|]. split; [done|]. split; [done|].
  unfold split_at. cbn [X_train y_train X_test y_test].
  rewrite !slice_to_from, !slice_to_length, !slice_from_length, HX, Hy.
  rewrite (slice_bound_nonneg n t Hrange).
  split_and!; try done; lia.
Qed.

Lemma training_size_and_partition_witness :
  (7 # 10)%Q ∈ training_percent_literals ∧ Z.of_nat 10 < 2 ^ 48 ∧
  length (separable_features, separable_labels).1 = 10%nat ∧
  length (separable_features, separable_labels).2 = 10%nat ∧
  ∃ t, training_size (float_of_literal (7 # 10)) 10 = Ok t ∧
       (t = exact_floor (7 # 10) 10 ∨ t = exact_floor (7 # 10) 10 - 1) ∧
       0 ≤ t ≤ Z.of_nat 10 ∧
       X_train (split_at t (separable_features, separable_labels))
         ++ X_test (split_at t (separable_features, separable_labels))
       = (separable_features, separable_labels).1 ∧
       y_train (split_at t (separable_features, separable_labels))
         ++ y_test (split_at t (separable_features, separable_labels))
       = (separable_features, separable_labels).2 ∧
       Z.of_nat (length (X_train (split_at t (separable_features, separable_labels)))) = t ∧
       Z.of_nat (length (y_train (split_at t (separable_features, separable_labels)))) = t ∧
       t + Z.of_nat (length (X_test (split_at t (separable_features, separable_labels))))
         = Z.of_nat 10 ∧
       t + Z.of_nat (length (y_test (split_at t (separable_features, separable_labels))))
         = Z.of_nat 10.
Proof.
  assert ((7 # 10)%Q ∈ training_percent_literals) as Hq
    by (unfold training_percent_literals; do 3 right; left).
  assert (Z.of_nat 10 < 2 ^ 48) as Hn by (by vm_compute).
  split; [exact Hq|]. split; [exact Hn|]. split; [reflexivity|]. split; [reflexivity|].
  apply (training_size_and_partition (7 # 10) 10
           (separable_features, separable_labels) Hq Hn eq_refl eq_refl).
Defined.

(** For the fraction 0.7 and 90 nodes the product rounds to
    62.99999999999999: the training size is 62, the exact floor is 63. *)
Lemma training_size_below_exact_floor :
  (7 # 10)%Q ∈ training_percent_literals ∧
  training_size (float_of_literal (7 # 10)) 90 = Ok 62 ∧
  exact_floor (7 # 10) 90 = 63 ∧
  training_size (float_of_literal (7 # 10)) 90 ≠ Ok (exact_floor (7 # 10) 90).
Proof.
  split; [unfold training_percent_literals; do 3 right; left|].
  by vm_compute.
Qed.

(* ===================================================================== *)
(** * Part III: further properties of the code                           *)
(* ===================================================================== *)

(** ** Loops in the error monad *)

Lemma foldM_invariant {A S} (Inv : S → Prop) (f : S → A → result S)
    (l : list A) (s s' : S) :
  Inv s →
  (∀ s1 x s2, x ∈ l → Inv s1 → f s1 x = Ok s2 → Inv s2) →
  foldM f s l = Ok s' → Inv s'.
Proof.
  revert s. induction l as [|x l IH]; intros s Hs Hstep; simpl.
  - by intros [= <-].
  - destruct (f s x) as [s1|e] eqn:Hx; simpl; [|done].
    apply IH.
    + eapply Hstep; [by left|done..].
    + intros s2 y s3 Hy. apply Hstep. by right.
Qed.

Lemma foldM_ok_steps {A S} (f : S → A → result S) (l : list A) (s s' : S) :
  foldM f s l = Ok s' → ∀ x, x ∈ l → ∃ s1 s2, f s1 x = Ok s2.
Proof.
  revert s. induction l as [|y l IH]; intros s Hok x Hx.
  - by apply elem_of_nil in Hx.
  - simpl in Hok. destruct (f s y) as [s1|e] eqn:Hy; simpl in Hok; [|done].
    apply elem_of_cons in Hx as [->|Hx]; [by eauto|by eapply IH].
Qed.

(** A loop one of whose steps fails in every state that the loop can
    reach does fail, and with the only exception its steps can raise. *)
Lemma foldM_raises {A S} (Inv : S → Prop) (e0 : exn) (f : S → A → result S)
    (l : list A) (s : S) :
  Inv s →
  (∀ s1 x s2, x ∈ l → Inv s1 → f s1 x = Ok s2 → Inv s2) →
  (∀ s1 x, x ∈ l → Inv s1 → only_raises e0 (f s1 x)) →
  (∃ x, x ∈ l ∧ ∀ s1, Inv s1 → ∃ e, f s1 x = Raise e) →
  foldM f s l = Raise e0.
Proof.
  revert s. induction l as [|y l IH]; intros s Hs Hstep Honly (x & Hx & Hbad).
  - by apply elem_of_nil in Hx.
  - simpl. destruct (f s y) as [s1|e] eqn:Hy; simpl.
    + apply IH.
      * eapply Hstep; [by left|done..].
      * intros s2 z s3 Hz. apply Hstep. by right.
      * intros s2 z Hz. apply Honly. by right.
      * apply elem_of_cons in Hx as [->|Hx]; [|by eauto].
        destruct (Hbad s Hs) as [e He]. congruence.
    + f_equal. eapply Honly; [by left|done..].
Qed.

(** ** More on [TopKRanker.predict] *)

(** X1. Under the estimator's contract the number of classes that
    [predict] marks in a row is fixed by the oracle count [k] and the
    number [n] of classes alone: [n] for [k = 0], [min k n] for a positive
    [k], and [max (n + k) 0] for a negative [k] (the slice then drops the
    [-k] lowest-ranked classes). *)
Theorem predict_count_by_oracle_count `{NumpySpec} `{Estimator} (m : model)
    (X P : list (list Q)) (top_k_list : list Z) :
  fitted m → predict_proba m X = Some P → length X = length top_k_list →
  ∃ L, predict m X top_k_list = Ok L ∧
    ∀ i row k, L !! i = Some row → top_k_list !! i = Some k →
      (k = 0 → positives row = length (classes_ m)) ∧
      (1 ≤ k → Z.of_nat (positives row) = Z.min k (Z.of_nat (length (classes_ m)))) ∧
      (k < 0 → Z.of_nat (positives row) = Z.max (Z.of_nat (length (classes_ m)) + k) 0).
Proof.
  intros Hfit HP Hlen. exists (predicted_rows P top_k_list).
  destruct (Hfit) as [_ Hshape]. destruct (Hshape X P HP) as [HlenP Hrows].
  split; [by apply predict_ok|].
  intros i row k Hrow Hk.
  apply predicted_rows_lookup in Hrow as (p & k' & Hp & Hk' & ->).
  assert (k' = k) as -> by congruence.
  assert (length p = length (classes_ m)) as Hn.
  { rewrite Forall_forall in Hrows. apply Hrows. by eapply list_elem_of_lookup_2. }
  rewrite predicted_row_count, Hn. unfold slice_bound.
  split_and!; intros Hcase; destruct (Z.ltb_spec (- k) 0); lia.
Qed.

Lemma predict_count_by_oracle_count_witness :
  @fitted linear_estimator separable_model ∧
  @predict_proba linear_estimator separable_model three_rows = Some three_probs ∧
  length three_rows = length [5; -1; 0] ∧
  ∃ L, @predict stable_numpy linear_estimator separable_model three_rows [5; -1; 0] = Ok L ∧
    ∀ i row k, L !! i = Some row → [5; -1; 0] !! i = Some k →
      (k = 0 → positives row = length (@classes_ linear_estimator separable_model)) ∧
      (1 ≤ k → Z.of_nat (positives row)
               = Z.min k (Z.of_nat (length (@classes_ linear_estimator separable_model)))) ∧
      (k < 0 → Z.of_nat (positives row)
               = Z.max (Z.of_nat (length (@classes_ linear_estimator separable_model)) + k) 0).
Proof.
  split; [exact separable_model_fitted|].
  split; [reflexivity|]. split; [reflexivity|].
  apply (@predict_count_by_oracle_count stable_numpy stable_numpy_spec
           linear_estimator separable_model three_rows three_probs [5; -1; 0]).
  - exact separable_model_fitted.
  - reflexivity.
  - reflexivity.
Defined.

Lemma mark_zero_row_binary (n : nat) (js : list nat) :
  Forall (λ v, v = 0 ∨ v = 1) (mark (replicate n 0) js).
Proof.
  rewrite mark_zero_row. apply Forall_fmap, Forall_forall. intros c _. simpl.
  case_bool_decide; auto.
Qed.

(** X2. Under the estimator's contract, what [predict] returns is an
    indicator matrix of the shape of the probabilities: one row per test
    row, one column per class, every entry 0 or 1. *)
Theorem predict_returns_indicator_matrix `{NumpySpec} `{Estimator} (m : model)
    (X P : list (list Q)) (top_k_list : list Z) :
  fitted m → predict_proba m X = Some P → length X = length top_k_list →
  ∃ L, predict m X top_k_list = Ok L ∧ length L = length X ∧
       Forall (λ row, length row = length (classes_ m)) L ∧ binary L.
Proof.
  intros Hfit HP Hlen. exists (predicted_rows P top_k_list).
  destruct (Hfit) as [_ Hshape]. destruct (Hshape X P HP) as [HlenP Hrows].
  split; [by apply predict_ok|]. split.
  { unfold predicted_rows. rewrite length_zip_with. lia. }
  split; apply Forall_lookup; intros i row Hrow;
    apply predicted_rows_lookup in Hrow as (p & k & Hp & Hk & ->).
  - rewrite mark_length, length_replicate.
    rewrite Forall_forall in Hrows. apply Hrows. by eapply list_elem_of_lookup_2.
  - apply mark_zero_row_binary.
Qed.

Lemma predict_returns_indicator_matrix_witness :
  @fitted linear_estimator separable_model ∧
  @predict_proba linear_estimator separable_model three_rows = Some three_probs ∧
  length three_rows = length [5; -1; 0] ∧
  ∃ L, @predict stable_numpy linear_estimator separable_model three_rows [5; -1; 0] = Ok L ∧
       length L = length three_rows ∧
       Forall (λ row, length row = length (@classes_ linear_estimator separable_model)) L ∧
       binary L.
Proof.
  split; [exact separable_model_fitted|].
  split; [reflexivity|]. split; [reflexivity|].
  apply (@predict_returns_indicator_matrix stable_numpy stable_numpy_spec
           linear_estimator separable_model three_rows three_probs [5; -1; 0]).
  - exact separable_model_fitted.
  - reflexivity.
  - reflexivity.
Defined.

Lemma option_or_raise_ok {A} (e : exn) (o : option A) (a : A) :
  option_or_raise e o = Ok a → o = Some a.
Proof. destruct o; simpl; congruence. Qed.

Lemma predict_inv `{Numpy} `{Estimator} (m : model) (X : list (list Q))
    (top_k_list : list Z) (L : list (list Z)) :
  predict m X top_k_list = Ok L →
  length X = length top_k_list ∧ ∃ P, predict_proba m X = Some P.
Proof.
  unfold predict. destruct (Nat.eqb_spec (length X) (length top_k_list)); simpl; [|done].
  intros (P & HP%option_or_raise_ok & _)%rbind_ok. eauto.
Qed.

Lemma predict_split_inv `{Numpy} `{Estimator} (self : task) (tp : float)
    (shuf : list (list Q) * list (list Z)) (s : split) (preds : list (list Z)) :
  predict_split self tp shuf = Ok (s, preds) →
  ∃ ts clf, training_size tp (num_nodes self) = Ok ts ∧ s = split_at ts shuf ∧
            fit (X_train s) (y_train s) = Some clf ∧
            predict clf (X_test s) (top_k_list_of (y_test s)) = Ok preds.
Proof.
  unfold predict_split.
  intros (ts & Hts & (clf & Hfit%option_or_raise_ok & Hrest)%rbind_ok)%rbind_ok.
  apply rbind_ok in Hrest as (preds' & Hpred & [= <- <-]).
  by exists ts, clf.
Qed.

(** X3. In a cycle that succeeds on a 0/1 label matrix, a prediction row
    has exactly as many positives as the ground-truth row it is scored
    against, whenever that row has at least one positive and no more
    positives than the prediction row has columns. *)
Theorem predict_split_counts_match `{NumpySpec} `{EstimatorSpec} (self : task)
    (tp : float) (shuf : list (list Q) * list (list Z))
    (s : split) (preds : list (list Z)) :
  binary shuf.2 → predict_split self tp shuf = Ok (s, preds) →
  length preds = length (y_test s) ∧
  ∀ i row prow, y_test s !! i = Some row → preds !! i = Some prow →
    (1 ≤ positives row ≤ length prow)%nat → positives prow = positives row.
Proof.
  intros Hbin (ts & clf & Hts & -> & Hfit & Hpred)%predict_split_inv.
  pose proof (fit_fitted _ _ _ Hfit) as Hfitted.
  destruct (predict_inv _ _ _ _ Hpred) as (Hlen & P & HP).
  rewrite (predict_ok clf _ P _ Hfitted HP Hlen) in Hpred. injection Hpred as <-.
  assert (binary (y_test (split_at ts shuf))) as Hb
    by (simpl; unfold slice_from; by apply Forall_drop).
  split.
  { unfold predicted_rows, top_k_list_of in *.
    rewrite length_zip_with, length_fmap. destruct Hfitted as [_ Hshape].
    destruct (Hshape _ _ HP) as [HlenP _]. rewrite length_fmap in Hlen.
    cbn [y_test X_test split_at] in *. lia. }
  cbn [y_test X_test split_at] in *.
  intros i row prow Hrow Hprow Hk.
  apply predicted_rows_lookup in Hprow as (p & k & Hp & Hki & ->).
  unfold top_k_list_of in Hki. rewrite list_lookup_fmap, Hrow in Hki.
  injection Hki as <-.
  rewrite row_sum_positives
    by (unfold binary in Hb; rewrite Forall_forall in Hb; apply Hb;
        by eapply list_elem_of_lookup_2).
  rewrite mark_length, length_replicate in Hk.
  apply Nat2Z.inj. apply predicted_row_count_in_range. lia.
Qed.

Lemma predict_split_counts_match_witness :
  binary (separable_features, separable_labels).2 ∧
  @predict_split stable_numpy linear_estimator separable_task
    (float_of_literal (5 # 10)) (separable_features, separable_labels)
    = Ok (separable_cycle.1, separable_cycle.2) ∧
  length separable_cycle.2 = length (y_test separable_cycle.1) ∧
  ∀ i row prow, y_test separable_cycle.1 !! i = Some row →
    separable_cycle.2 !! i = Some prow →
    (1 ≤ positives row ≤ length prow)%nat → positives prow = positives row.
Proof.
  assert (binary (separable_features, separable_labels).2) as Hbin.
  { unfold binary. simpl. unfold separable_labels.
    repeat first [apply Forall_nil_2 | apply Forall_cons_2]; auto. }
  split; [exact Hbin|]. split; [reflexivity|].
  apply (@predict_split_counts_match stable_numpy stable_numpy_spec
           linear_estimator linear_estimator_spec separable_task
           (float_of_literal (5 # 10)) (separable_features, separable_labels)
           separable_cycle.1 separable_cycle.2 Hbin).
  reflexivity.
Defined.

(** ** More on the label matrix builder *)

Lemma take_indices_Forall {A} (P : A → Prop) (l l' : list A) (idx : list nat) :
  Forall P l → take_indices l idx = Ok l' → Forall P l'.
Proof.
  unfold take_indices. intros Hl. revert l'.
  induction idx as [|i idx IH]; intros l'; simpl.
  - by intros [= <-].
  - intros (x & Hx & Hrest)%rbind_ok.
    apply rbind_ok in Hrest as (xs & Hxs & [= <-]).
    constructor; [|by apply IH].
    unfold getitem in Hx. apply rbind_ok in Hx as (j & _ & Hj).
    destruct (l !! j) as [r|] eqn:Hr; simpl in Hj; [|done].
    injection Hj as <-. rewrite Forall_forall in Hl.
    apply Hl. by eapply list_elem_of_lookup_2.
Qed.

Lemma one_hot_row_sum (n_classes : nat) (c : Z) :
  0 ≤ c < Z.of_nat n_classes → foldr Z.add 0 (one_hot_row n_classes c) = 1.
Proof.
  intros Hc.
  change (one_hot_row n_classes c) with (mark (replicate n_classes 0) [Z.to_nat c]).
  rewrite row_sum_positives by apply mark_zero_row_binary.
  rewrite positives_mark; [done|apply NoDup_singleton|].
  apply Forall_singleton. lia.
Qed.

(** X4. For a single-label dataset with class indices in
    [0, num_classes), every ground-truth row has exactly one positive, and
    so every oracle count handed to [predict] is 1, whatever the shuffle
    and the training size. *)
Theorem single_label_oracle_count_is_one (y : list Z) (n_classes : nat)
    (edges : list (Z * Z)) (hidden num_shuf : Z) :
  Forall (λ c, 0 ≤ c < Z.of_nat n_classes) y →
  ∃ t, init (SingleLabel y n_classes edges) hidden num_shuf = Ok t ∧
    Forall (λ row, foldr Z.add 0 row = 1) (label_matrix t) ∧
    ∀ (indices : list nat) (y' : list (list Z)) (X' : list (list Q)) (ts : Z),
      take_indices (label_matrix t) indices = Ok y' →
      Forall (λ k, k = 1) (top_k_list_of (y_test (split_at ts (X', y')))).
Proof.
  intros Hy. simpl. unfold one_hot.
  pose proof (one_hot_loop n_classes y Hy []) as Hloop. simpl in Hloop.
  rewrite Hloop. simpl. eexists. split; [done|]. simpl.
  assert (Forall (λ row, foldr Z.add 0 row = 1) (one_hot_row n_classes <$> y)) as Hone.
  { apply Forall_fmap. eapply Forall_impl; [exact Hy|].
    intros c Hc. by apply one_hot_row_sum. }
  split; [done|].
  intros indices y' X' ts Htake. unfold top_k_list_of, slice_from.
  apply Forall_fmap, Forall_drop. by eapply take_indices_Forall.
Qed.

Lemma single_label_oracle_count_is_one_witness :
  Forall (λ c, 0 ≤ c < Z.of_nat 3) [0; 2; 1; 2] ∧
  ∃ t, init (SingleLabel [0; 2; 1; 2] 3 [(0, 1); (2, 3)]) 8 5 = Ok t ∧
    Forall (λ row, foldr Z.add 0 row = 1) (label_matrix t) ∧
    ∀ (indices : list nat) (y' : list (list Z)) (X' : list (list Q)) (ts : Z),
      take_indices (label_matrix t) indices = Ok y' →
      Forall (λ k, k = 1) (top_k_list_of (y_test (split_at ts (X', y')))).
Proof.
  assert (Forall (λ c, 0 ≤ c < Z.of_nat 3) [0; 2; 1; 2]) as Hy
    by (repeat constructor; simpl; lia).
  split; [exact Hy|].
  apply (single_label_oracle_count_is_one [0; 2; 1; 2] 3 [(0, 1); (2, 3)] 8 5 Hy).
Defined.

Lemma normalize_index_out_of_bounds (n : nat) (i : Z) :
  out_of_bounds n i → normalize_index n i = Raise IndexError.
Proof.
  unfold out_of_bounds, normalize_index. intros Hi.
  destruct (Z.leb_spec 0 i), (Z.ltb_spec i (Z.of_nat n)); simpl; try lia;
    destruct (Z.leb_spec (- Z.of_nat n) i), (Z.ltb_spec i 0); simpl; try lia; done.
Qed.

Lemma normalize_index_wrap (n : nat) (i : Z) :
  - Z.of_nat n ≤ i < Z.of_nat n →
  normalize_index n i = Ok (Z.to_nat (wrap_index n i)).
Proof.
  unfold wrap_index, normalize_index. intros Hi.
  destruct (Z.ltb_spec i 0).
  - destruct (Z.leb_spec 0 i); [lia|]. simpl.
    destruct (Z.leb_spec (- Z.of_nat n) i); [|lia]. done.
  - destruct (Z.leb_spec 0 i); [|lia].
    destruct (Z.ltb_spec i (Z.of_nat n)); [|lia]. done.
Qed.

Lemma setitem2_shape {A} (M M' : list (list A)) (i j : Z) (v : A) (w : nat) :
  Forall (λ row, length row = w) M → setitem2 M i j v = Ok M' →
  Forall (λ row, length row = w) M' ∧ length M' = length M.
Proof.
  intros HM. unfold setitem2.
  intros (i' & Hi & (row & Hrow & (j' & Hj & [= <-])%rbind_ok)%rbind_ok)%rbind_ok.
  destruct (M !! i') as [r|] eqn:Hr; simpl in Hrow; [|done]. injection Hrow as ->.
  split; [|by rewrite length_insert].
  apply Forall_insert; [done|]. rewrite length_insert.
  rewrite Forall_forall in HM. apply HM. by eapply list_elem_of_lookup_2.
Qed.

(** X5. A single-label dataset one of whose class indices lies outside
    [-num_classes, num_classes) makes the constructor fail with an
    [IndexError]: no task is built. *)
Theorem init_rejects_class_out_of_bounds (y : list Z) (n_classes : nat)
    (edges : list (Z * Z)) (hidden num_shuf : Z) :
  (∃ c, c ∈ y ∧ out_of_bounds n_classes c) →
  init (SingleLabel y n_classes edges) hidden num_shuf = Raise IndexError.
Proof.
  intros (c & Hc & Hbad). simpl. unfold one_hot.
  rewrite (foldM_raises (λ M, Forall (λ row, length row = n_classes) M) IndexError);
    [done| | | |].
  - unfold zeros. apply Forall_replicate. by rewrite length_replicate.
  - intros M ic M' _ HM Hset. by apply (setitem2_shape _ _ _ _ _ _ HM Hset).
  - intros M ic _ _. apply only_raises_setitem2.
  - apply list_elem_of_lookup in Hc as [i Hi].
    exists (i, c). split.
    + apply list_elem_of_lookup. exists i.
      apply lookup_zip_with_Some. exists i, c. split; [done|]. split; [|done].
      apply lookup_seq. split; [done|]. by eapply lookup_lt_Some.
    + intros M HM. simpl. unfold setitem2.
      destruct (normalize_index (length M) (Z.of_nat i)) as [i'|e] eqn:Hn;
        simpl; [|by eauto].
      destruct (M !! i') as [row|] eqn:Hrow; simpl; [|by eauto].
      assert (length row = n_classes) as ->.
      { rewrite Forall_forall in HM. apply HM. by eapply list_elem_of_lookup_2. }
      rewrite normalize_index_out_of_bounds by done. simpl. eauto.
Qed.

Lemma init_rejects_class_out_of_bounds_witness :
  (∃ c, c ∈ [0; 3; 1] ∧ out_of_bounds 3 c) ∧
  init (SingleLabel [0; 3; 1] 3 [(0, 1)]) 8 5 = Raise IndexError.
Proof.
  assert (∃ c, c ∈ [0; 3; 1] ∧ out_of_bounds 3 c) as Hbad.
  { exists 3. split; [right; left|]. unfold out_of_bounds. simpl. lia. }
  split; [exact Hbad|].
  apply (init_rejects_class_out_of_bounds [0; 3; 1] 3 [(0, 1)] 8 5 Hbad).
Defined.

Lemma setitem2_wrap {A} (M : list (list A)) (i : nat) (j : Z) (row : list A) (v : A) :
  M !! i = Some row → - Z.of_nat (length row) ≤ j < Z.of_nat (length row) →
  setitem2 M (Z.of_nat i) j v
  = Ok (<[i := <[Z.to_nat (wrap_index (length row) j) := v]> row]> M).
Proof.
  intros Hrow Hj. unfold setitem2.
  rewrite normalize_index_nat by (by eapply lookup_lt_Some).
  simpl. rewrite Hrow. simpl.
  by rewrite normalize_index_wrap.
Qed.

Lemma one_hot_loop_wrap (n_classes : nat) (y : list Z) :
  Forall (λ c, - Z.of_nat n_classes ≤ c < Z.of_nat n_classes) y →
  ∀ filled : list (list Z),
    foldM (λ M ic, setitem2 M (Z.of_nat ic.1) ic.2 1)
          (filled ++ zeros 0 (length y) n_classes)
          (zip (seq (length filled) (length y)) y)
    = Ok (filled ++ ((λ c, one_hot_row n_classes (wrap_index n_classes c)) <$> y)).
Proof.
  induction 1 as [|c y Hc _ IH]; intros filled; [done|].
  cbn [length seq zip zip_with foldM fst snd].
  unfold zeros. cbn [replicate]. fold (zeros 0 (length y) n_classes).
  rewrite (setitem2_wrap _ _ _ (replicate n_classes 0));
    [|by apply list_lookup_middle|by rewrite length_replicate].
  rewrite length_replicate. cbn [mbind result_bind rbind].
  rewrite (insert_app_r_alt filled _ (length filled)) by lia.
  rewrite Nat.sub_diag. simpl. fold (one_hot_row n_classes (wrap_index n_classes c)).
  rewrite (cons_middle _ filled), app_assoc.
  replace (S (length filled))
    with (length (filled ++ [one_hot_row n_classes (wrap_index n_classes c)]))
    by (rewrite length_app; simpl; lia).
  rewrite IH. by rewrite <- app_assoc.
Qed.

(** X6. A class index in [-num_classes, 0) counts from the last column, as
    numpy indices do: the constructor succeeds for class indices in
    [-num_classes, num_classes), and the row of a node of class [c] is the
    one-hot row of column [c + num_classes] when [c] is negative and of
    column [c] otherwise. *)
Theorem init_wraps_negative_class (y : list Z) (n_classes : nat)
    (edges : list (Z * Z)) (hidden num_shuf : Z) :
  Forall (λ c, - Z.of_nat n_classes ≤ c < Z.of_nat n_classes) y →
  ∃ t, init (SingleLabel y n_classes edges) hidden num_shuf = Ok t ∧
    label_matrix t = (λ c, one_hot_row n_classes (wrap_index n_classes c)) <$> y ∧
    ∀ i c, y !! i = Some c → c < 0 →
      label_matrix t !! i = Some (one_hot_row n_classes (c + Z.of_nat n_classes)).
Proof.
  intros Hy. simpl. unfold one_hot.
  pose proof (one_hot_loop_wrap n_classes y Hy []) as Hloop. simpl in Hloop.
  rewrite Hloop. simpl. eexists. split; [done|]. simpl. split; [done|].
  intros i c Hc Hneg. rewrite list_lookup_fmap, Hc. simpl.
  unfold wrap_index. by destruct (Z.ltb_spec c 0); [|lia].
Qed.

Lemma init_wraps_negative_class_witness :
  Forall (λ c, - Z.of_nat 3 ≤ c < Z.of_nat 3) [0; -1; -3] ∧
  ∃ t, init (SingleLabel [0; -1; -3] 3 [(0, 1)]) 8 5 = Ok t ∧
    label_matrix t = (λ c, one_hot_row 3 (wrap_index 3 c)) <$> [0; -1; -3] ∧
    ∀ i c, [0; -1; -3] !! i = Some c → c < 0 →
      label_matrix t !! i = Some (one_hot_row 3 (c + Z.of_nat 3)).
Proof.
  assert (Forall (λ c, - Z.of_nat 3 ≤ c < Z.of_nat 3) [0; -1; -3]) as Hy
    by (repeat constructor; simpl; lia).
  split; [exact Hy|].
  apply (init_wraps_negative_class [0; -1; -3] 3 [(0, 1)] 8 5 Hy).
Defined.

(** ** More on the graph and the embedding alignment *)

Lemma add_node_prefix (nodes : list Z) (u : Z) : nodes `prefix_of` add_node nodes u.
Proof.
  unfold add_node. case_bool_decide; [done|]. by apply prefix_app_r.
Qed.

Lemma foldl_add_edge_prefix (edges : list (Z * Z)) (acc : list Z) :
  acc `prefix_of` foldl add_edge acc edges.
Proof.
  revert acc. induction edges as [|e edges IH]; intros acc; simpl; [done|].
  etrans; [|apply IH]. unfold add_edge.
  etrans; apply add_node_prefix.
Qed.

Lemma add_node_present (nodes : list Z) (u : Z) : u ∈ nodes → add_node nodes u = nodes.
Proof. intros Hu. unfold add_node. by rewrite bool_decide_true. Qed.

(** X7. The visitation order holds every endpoint of the edge list once and
    nothing else; appending edges only appends nodes, so the position of a
    node already visited never changes; and an edge that repeats an
    earlier one adds nothing. *)
Theorem graph_nodes_first_occurrence (edges more : list (Z * Z)) :
  NoDup (graph_nodes edges) ∧
  (∀ w, w ∈ graph_nodes edges ↔ ∃ e, e ∈ edges ∧ (w = e.1 ∨ w = e.2)) ∧
  graph_nodes edges `prefix_of` graph_nodes (edges ++ more) ∧
  (∀ e, e ∈ edges → graph_nodes (edges ++ [e]) = graph_nodes edges).
Proof.
  destruct (graph_nodes_spec edges) as [Hnd Hin].
  split; [done|]. split; [done|]. split.
  - unfold graph_nodes. rewrite foldl_app. apply foldl_add_edge_prefix.
  - intros e He. unfold graph_nodes. rewrite foldl_app. simpl.
    fold (graph_nodes edges). unfold add_edge.
    rewrite (add_node_present _ e.1) by (apply Hin; exists e; auto).
    apply add_node_present. apply Hin. exists e. auto.
Qed.

Lemma broadcast_row_length {A} (w : nat) (v row : list A) :
  broadcast_row w v = Ok row → length row = w.
Proof.
  unfold broadcast_row. destruct (Nat.eqb_spec (length v) w) as [Hw|Hw].
  - by intros [= <-].
  - destruct v as [|x [|? ?]]; try done. intros [= <-]. by rewrite length_replicate.
Qed.

Lemma align_step_shape (embeddings : list (list Q)) (w n : nat)
    (F F' : list (list Q)) (vn : nat * Z) :
  length F = n ∧ Forall (λ row, length row = w) F →
  align_step embeddings w F vn = Ok F' →
  length F' = n ∧ Forall (λ row, length row = w) F'.
Proof.
  intros [Hlen Hrows]. unfold align_step.
  intros (e & _ & (i & _ & (row & Hrow & [= <-])%rbind_ok)%rbind_ok)%rbind_ok.
  split; [by rewrite length_insert|].
  apply Forall_insert; [done|]. by eapply broadcast_row_length.
Qed.

(** X8. Whenever the alignment returns, what it returns has exactly
    [num_nodes] rows of width [hidden_size], whatever the edges and the
    vectors were: nodes that no edge touches and vectors of width one do
    not change the shape. *)
Theorem align_embeddings_shape (n_nodes hidden : nat) (nodes : list Z)
    (embeddings F : list (list Q)) :
  align_embeddings n_nodes hidden nodes embeddings = Ok F →
  length F = n_nodes ∧ Forall (λ row, length row = hidden) F.
Proof.
  unfold align_embeddings.
  apply (foldM_invariant
           (λ F, length F = n_nodes ∧ Forall (λ row, length row = hidden) F)).
  - unfold zeros. rewrite length_replicate. split; [done|].
    apply Forall_replicate. by rewrite length_replicate.
  - intros F1 vn F2 _. apply align_step_shape.
Qed.

Lemma align_embeddings_shape_witness :
  align_embeddings 5 2 [3; 1; 0] [[31; 32]; [7]; [1; 2]]%Q
    = Ok [[1; 2]; [7; 7]; [0; 0]; [31; 32]; [0; 0]]%Q ∧
  length [[1; 2]; [7; 7]; [0; 0]; [31; 32]; [0; 0]]%Q = 5%nat ∧
  Forall (λ row : list Q, length row = 2%nat)
         [[1; 2]; [7; 7]; [0; 0]; [31; 32]; [0; 0]]%Q.
Proof.
  split; [reflexivity|].
  apply (align_embeddings_shape 5 2 [3; 1; 0] [[31; 32]; [7]; [1; 2]]%Q).
  reflexivity.
Defined.

Lemma enumerate_elem_of {A} (l : list A) (i : nat) (x : A) :
  (i, x) ∈ enumerate l ↔ l !! i = Some x.
Proof.
  unfold enumerate. rewrite list_elem_of_lookup. split.
  - intros (j & Hj). apply lookup_zip_with_Some in Hj as (i' & x' & [= -> ->] & Hs & Hx).
    apply lookup_seq in Hs as [-> _]. done.
  - intros Hx. exists i. apply lookup_zip_with_Some. exists i, x.
    split; [done|]. split; [|done].
    apply lookup_seq. split; [done|]. by eapply lookup_lt_Some.
Qed.

Lemma getitem_elem_of {A} (l : list A) (i : Z) (x : A) :
  getitem l i = Ok x → x ∈ l.
Proof.
  unfold getitem. intros (j & _ & Hj)%rbind_ok.
  destruct (l !! j) eqn:Hl; simpl in Hj; [|done]. injection Hj as ->.
  by eapply list_elem_of_lookup_2.
Qed.

Lemma broadcast_row_ok {A} (w : nat) (v : list A) :
  length v = w ∨ length v = 1%nat → ∃ row, broadcast_row w v = Ok row.
Proof.
  unfold broadcast_row. intros [Hv|Hv].
  - rewrite Hv, Nat.eqb_refl. eauto.
  - destruct (length v =? w)%nat; [eauto|].
    destruct v as [|x [|? ?]]; simpl in Hv; try done. eauto.
Qed.

Lemma align_step_only_index (embeddings : list (list Q)) (w : nat)
    (F : list (list Q)) (vn : nat * Z) :
  Forall (λ v, length v = w ∨ length v = 1%nat) embeddings →
  only_raises IndexError (align_step embeddings w F vn).
Proof.
  intros Hw e0. unfold align_step.
  destruct (getitem embeddings (Z.of_nat vn.1)) as [v|e1] eqn:Hget; simpl.
  - destruct (normalize_index (length F) vn.2) as [i|e2] eqn:Hi; simpl.
    + destruct (broadcast_row_ok w v) as [row ->]; [|done].
      rewrite Forall_forall in Hw. apply Hw. by eapply getitem_elem_of.
    + intros [= <-]. by eapply only_raises_normalize_index.
  - intros [= <-]. by eapply only_raises_getitem.
Qed.

(** X9. [train] does not survive an edge whose endpoint is not a row of
    the feature matrix: when the embedding model delivers vectors of width
    [hidden_size] (or one) and some endpoint lies outside
    [-num_nodes, num_nodes), [train] ends in an [IndexError] and no score
    is computed. *)
Theorem train_rejects_endpoint_out_of_bounds
    `{Numpy} `{Estimator} `{RandomState} `{Metric} `{EmbeddingModel}
    (self : task) (g : rng) (embeddings : list (list Q)) :
  embed (graph_nodes (edge_index self)) (edge_index self) = Ok embeddings →
  Forall (λ v, length v = hidden_size self ∨ length v = 1%nat) embeddings →
  (∃ e, e ∈ edge_index self ∧
        (out_of_bounds (num_nodes self) e.1 ∨ out_of_bounds (num_nodes self) e.2)) →
  train self g = Raise IndexError.
Proof.
  intros Hembed Hwidth (e & He & Hbad). unfold train. rewrite Hembed.
  cbn [mbind result_bind rbind]. unfold align_embeddings.
  rewrite (foldM_raises (λ F, length F = num_nodes self) IndexError); [done| | | |].
  - unfold zeros. by rewrite length_replicate.
  - intros F1 vn F2 _ HF1. unfold align_step.
    intros (v & _ & (i & _ & (row & _ & [= <-])%rbind_ok)%rbind_ok)%rbind_ok.
    by rewrite length_insert.
  - intros F1 vn _ _. by apply align_step_only_index.
  - assert (∃ u, u ∈ graph_nodes (edge_index self) ∧ out_of_bounds (num_nodes self) u)
      as (u & Hu & Hout).
    { destruct (graph_nodes_spec (edge_index self)) as [_ Hin].
      destruct Hbad as [Hbad|Hbad]; [exists e.1|exists e.2];
        (split; [apply Hin; exists e; auto|done]). }
    apply list_elem_of_lookup in Hu as [vid Hvid].
    exists (vid, u). split; [by apply enumerate_elem_of|].
    intros F1 HF1. unfold align_step. simpl.
    destruct (getitem embeddings (Z.of_nat vid)) as [v|e1]; simpl; [|by eauto].
    rewrite HF1, normalize_index_out_of_bounds by done. simpl. eauto.
Qed.

Lemma train_rejects_endpoint_out_of_bounds_witness :
  @embed degree_embedding (graph_nodes (edge_index stray_task)) (edge_index stray_task)
    = Ok [[0; 1]; [1; 2]; [7; 1]]%Q ∧
  Forall (λ v : list Q, length v = hidden_size stray_task ∨ length v = 1%nat)
         [[0; 1]; [1; 2]; [7; 1]]%Q ∧
  (∃ e, e ∈ edge_index stray_task ∧
        (out_of_bounds (num_nodes stray_task) e.1 ∨
         out_of_bounds (num_nodes stray_task) e.2)) ∧
  @train stable_numpy linear_estimator rotating_state micro_f1 degree_embedding
    stray_task 7 = Raise IndexError.
Proof.
  assert (Forall (λ v : list Q, length v = hidden_size stray_task ∨ length v = 1%nat)
                 [[0; 1]; [1; 2]; [7; 1]]%Q) as Hwidth
    by (repeat constructor; by left).
  assert (∃ e, e ∈ edge_index stray_task ∧
               (out_of_bounds (num_nodes stray_task) e.1 ∨
                out_of_bounds (num_nodes stray_task) e.2)) as Hbad.
  { exists (1, 7). split; [right; left|]. right. unfold out_of_bounds. simpl. lia. }
  split; [reflexivity|]. split; [exact Hwidth|]. split; [exact Hbad|].
  apply (@train_rejects_endpoint_out_of_bounds stable_numpy linear_estimator
           rotating_state micro_f1 degree_embedding stray_task 7
           [[0; 1]; [1; 2]; [7; 1]]%Q eq_refl Hwidth Hbad).
Defined.

(** X10. A vector whose width is neither [hidden_size] nor one cannot be
    stored: when every visited node is a valid row index and the model
    returned enough vectors, one such vector among them makes the
    alignment fail with a [ValueError]. *)
Theorem align_rejects_wrong_width (n_nodes hidden : nat) (nodes : list Z)
    (embeddings : list (list Q)) :
  Forall (λ u, - Z.of_nat n_nodes ≤ u < Z.of_nat n_nodes) nodes →
  (length nodes ≤ length embeddings)%nat →
  (∃ vid v, (vid < length nodes)%nat ∧ embeddings !! vid = Some v ∧
            length v ≠ hidden ∧ length v ≠ 1%nat) →
  align_embeddings n_nodes hidden nodes embeddings = Raise ValueError.
Proof.
  intros Hnodes Hlen (vid & v & Hvid & Hv & Hw & Hw1). unfold align_embeddings.
  assert (∀ (F : list (list Q)) (vn : nat * Z),
            vn ∈ enumerate nodes → length F = n_nodes →
            ∃ e i, getitem embeddings (Z.of_nat vn.1) = Ok e ∧
                   embeddings !! vn.1 = Some e ∧
                   normalize_index (length F) vn.2 = Ok i) as Hstep.
  { intros F [j u] Hin HF. apply enumerate_elem_of in Hin. simpl.
    destruct (lookup_lt_is_Some_2 embeddings j) as [e He].
    { apply lookup_lt_Some in Hin. lia. }
    exists e, (Z.to_nat (wrap_index n_nodes u)).
    split; [by apply getitem_nat|]. split; [done|].
    rewrite HF. apply normalize_index_wrap.
    rewrite Forall_forall in Hnodes. apply Hnodes. by eapply list_elem_of_lookup_2. }
  apply (foldM_raises (λ F, length F = n_nodes)).
  - unfold zeros. by rewrite length_replicate.
  - intros F1 vn F2 _ HF1. unfold align_step.
    intros (e & _ & (i & _ & (row & _ & [= <-])%rbind_ok)%rbind_ok)%rbind_ok.
    by rewrite length_insert.
  - intros F1 vn Hin HF1 e0. unfold align_step.
    destruct (Hstep F1 vn Hin HF1) as (e & i & -> & _ & ->). simpl.
    unfold broadcast_row. destruct (length e =? hidden)%nat; [done|].
    destruct e as [|x [|? ?]]; simpl; congruence.
  - destruct (lookup_lt_is_Some_2 nodes vid Hvid) as [u Hu].
    exists (vid, u). split; [by apply enumerate_elem_of|].
    intros F1 HF1. unfold align_step.
    destruct (Hstep F1 (vid, u)) as (e & i & -> & He & ->);
      [by apply enumerate_elem_of|done|].
    simpl in He. assert (e = v) as -> by congruence. simpl.
    unfold broadcast_row. destruct (Nat.eqb_spec (length v) hidden); [done|].
    destruct v as [|x [|? ?]]; simpl in *; try done; eauto.
Qed.

Lemma align_rejects_wrong_width_witness :
  Forall (λ u, - Z.of_nat 5 ≤ u < Z.of_nat 5) [3; 1; 0] ∧
  (length [3; 1; 0] ≤ length [[31; 32]; [7; 8; 9]; [1; 2]]%Q)%nat ∧
  (∃ vid v, (vid < length [3; 1; 0])%nat ∧
            [[31; 32]; [7; 8; 9]; [1; 2]]%Q !! vid = Some v ∧
            length v ≠ 2%nat ∧ length v ≠ 1%nat) ∧
  align_embeddings 5 2 [3; 1; 0] [[31; 32]; [7; 8; 9]; [1; 2]]%Q = Raise ValueError.
Proof.
  assert (Forall (λ u, - Z.of_nat 5 ≤ u < Z.of_nat 5) [3; 1; 0]) as Hnodes
    by (repeat constructor; simpl; lia).
  assert (length [3; 1; 0] ≤ length [[31; 32]; [7; 8; 9]; [1; 2]]%Q)%nat as Hlen
    by (simpl; lia).
  assert (∃ vid v, (vid < length [3; 1; 0])%nat ∧
            [[31; 32]; [7; 8; 9]; [1; 2]]%Q !! vid = Some v ∧
            length v ≠ 2%nat ∧ length v ≠ 1%nat) as Hbad.
  { exists 1%nat, [7; 8; 9]%Q. simpl. split_and!; [lia|done|lia|lia]. }
  split; [exact Hnodes|]. split; [exact Hlen|]. split; [exact Hbad|].
  apply (align_rejects_wrong_width 5 2 [3; 1; 0]
           [[31; 32]; [7; 8; 9]; [1; 2]]%Q Hnodes Hlen Hbad).
Defined.

(** ** More on the driver *)

(** X11. Feature and label matrices with different numbers of rows are
    caught by the first shuffle: with at least one shuffle requested the
    evaluation ends in a [ValueError] before anything is fitted.  With no
    shuffle requested nothing is checked and the empty mapping comes back. *)
Theorem evaluate_rejects_mismatched_rows
    `{Numpy} `{Estimator} `{RandomState} `{Metric}
    (self : task) (X : list (list Q)) (y : list (list Z)) (n_shuffle : Z) (g : rng) :
  length X ≠ length y →
  (1 ≤ n_shuffle → _evaluate self X y n_shuffle g = Raise ValueError) ∧
  (n_shuffle ≤ 0 → _evaluate self X y n_shuffle g = Ok (∅, g)).
Proof.
  intros Hlen. unfold _evaluate, make_shuffles. split; intros Hn.
  - destruct (Z.to_nat n_shuffle) as [|k] eqn:Hk; [lia|].
    simpl. unfold skshuffle. apply Nat.eqb_neq in Hlen. by rewrite Hlen.
  - replace (Z.to_nat n_shuffle) with 0%nat by lia.
    cbn [seq foldM mbind result_bind rbind].
    by rewrite score_loop_nil.
Qed.

Lemma evaluate_rejects_mismatched_rows_witness :
  length three_rows ≠ length separable_labels ∧
  @_evaluate stable_numpy linear_estimator rotating_state micro_f1
     separable_task three_rows separable_labels 2 7 = Raise ValueError ∧
  @_evaluate stable_numpy linear_estimator rotating_state micro_f1
     separable_task three_rows separable_labels 0 7 = Ok (∅, 7).
Proof.
  assert (length three_rows ≠ length separable_labels) as Hlen by (simpl; lia).
  split; [exact Hlen|].
  split.
  - apply (@evaluate_rejects_mismatched_rows stable_numpy linear_estimator
             rotating_state micro_f1 separable_task three_rows separable_labels
             2 7 Hlen). lia.
  - apply (@evaluate_rejects_mismatched_rows stable_numpy linear_estimator
             rotating_state micro_f1 separable_task three_rows separable_labels
             0 7 Hlen). lia.
Defined.

(** X12. The evaluation gives all or nothing: if it returns a mapping,
    then the shuffles were drawn and every cycle, for each of the five
    fractions on each shuffle, fitted, predicted and scored without an
    exception. *)
Theorem evaluate_ok_means_every_cycle_ok
    `{Numpy} `{Estimator} `{RandomState} `{Metric}
    (self : task) (X : list (list Q)) (y : list (list Z)) (n_shuffle : Z)
    (g g' : rng) (d : gmap string Q) :
  _evaluate self X y n_shuffle g = Ok (d, g') →
  ∃ shuffles, make_shuffles X y n_shuffle g = Ok (shuffles, g') ∧
    ∀ tp shuf, tp ∈ training_percents → shuf ∈ shuffles →
      ∃ r, evaluate_split self tp shuf = Ok r.
Proof.
  unfold _evaluate.
  intros ([shuffles g1] & Hshuf & (ar & Hloop & (d0 & _ & [= <- <-])%rbind_ok)%rbind_ok)%rbind_ok.
  exists shuffles. split; [done|].
  intros tp shuf Htp Hin. unfold score_loop in Hloop.
  destruct (foldM_ok_steps _ _ _ _ Hloop tp Htp) as (ar1 & ar2 & Hinner).
  destruct (foldM_ok_steps _ _ _ _ Hinner shuf Hin) as (ar3 & ar4 & Hcycle).
  apply rbind_ok in Hcycle as (r & Hr & _). eauto.
Qed.

Lemma evaluate_ok_means_every_cycle_ok_witness :
  @_evaluate stable_numpy linear_estimator rotating_state micro_f1
     separable_task separable_features separable_labels 2 7
    = Ok (separable_report.1, separable_report.2) ∧
  ∃ shuffles,
    @make_shuffles rotating_state separable_features separable_labels 2 7
      = Ok (shuffles, separable_report.2) ∧
    ∀ tp shuf, tp ∈ training_percents → shuf ∈ shuffles →
      ∃ r, @evaluate_split stable_numpy linear_estimator micro_f1
             separable_task tp shuf = Ok r.
Proof.
  assert (@_evaluate stable_numpy linear_estimator rotating_state micro_f1
            separable_task separable_features separable_labels 2 7
          = Ok (separable_report.1, separable_report.2)) as Hrun
    by (by vm_compute).
  split; [exact Hrun|].
  apply (@evaluate_ok_means_every_cycle_ok stable_numpy linear_estimator
           rotating_state micro_f1 separable_task separable_features
           separable_labels 2 7 separable_report.2 separable_report.1 Hrun).
Defined.

Lemma inject_Z_pos_lt (z : Z) : 0 < z → (0 < inject_Z z)%Q.
Proof. intros Hz. unfold Qlt. simpl. lia. Qed.

Lemma Qdiv_unit_interval (a b : Q) :
  (0 < b)%Q → (0 <= a)%Q → (a <= b)%Q → unit_interval (a / b).
Proof.
  intros Hb Ha Hab. split.
  - apply Qle_shift_div_l; [done|]. by rewrite Qmult_0_l.
  - apply Qle_shift_div_r; [done|]. by rewrite Qmult_1_l.
Qed.

Lemma foldl_Qplus_bounds (l : list Q) (a : Q) :
  Forall unit_interval l →
  (a <= foldl Qplus a l)%Q ∧
  (foldl Qplus a l <= a + inject_Z (Z.of_nat (length l)))%Q.
Proof.
  intros Hl. revert a. induction Hl as [|x l [Hx0 Hx1] _ IH]; intros a.
  - simpl. split; [apply Qle_refl|]. rewrite Qplus_0_r. apply Qle_refl.
  - cbn [foldl length]. destruct (IH (a + x)%Q) as [Hlo Hhi]. split.
    + eapply Qle_trans; [|exact Hlo].
      rewrite <- (Qplus_0_r a) at 1. by apply Qplus_le_r.
    + eapply Qle_trans; [exact Hhi|].
      rewrite Nat2Z.inj_succ. unfold Z.succ. rewrite inject_Z_plus.
      rewrite <- Qplus_assoc. apply Qplus_le_r.
      rewrite (Qplus_comm (inject_Z (Z.of_nat (length l)))).
      by apply Qplus_le_l.
Qed.

Lemma arithmetic_mean_unit_interval (l : list Q) :
  l ≠ [] → Forall unit_interval l → unit_interval (arithmetic_mean l).
Proof.
  intros Hne Hl. unfold arithmetic_mean.
  destruct (foldl_Qplus_bounds l 0 Hl) as [Hlo Hhi]. rewrite Qplus_0_l in Hhi.
  apply Qdiv_unit_interval; [|done..].
  apply inject_Z_pos_lt. destruct l; [done|]. simpl. lia.
Qed.

Lemma results_append_unit_interval (d : list (float * list Q)) (key : float) (v : Q) :
  Forall (λ kv, Forall unit_interval kv.2) d → unit_interval v →
  Forall (λ kv, Forall unit_interval kv.2) (results_append d key v).
Proof.
  intros Hd Hv. induction Hd as [|[k vs] d Hk Hd IH]; simpl.
  - apply Forall_singleton. simpl. by apply Forall_singleton.
  - destruct (SFeqb k key).
    + apply Forall_cons_2; [|done]. simpl in *.
      apply Forall_app. split; [done|]. by apply Forall_singleton.
    + by apply Forall_cons_2.
Qed.

Lemma results_get_unit_interval (d : list (float * list Q)) (key : float) :
  Forall (λ kv, Forall unit_interval kv.2) d →
  Forall unit_interval (results_get d key).
Proof.
  induction 1 as [|[k vs] d Hk _ IH]; simpl; [done|].
  by destruct (SFeqb k key).
Qed.

Lemma mapM_r_ok_inv {A B} (f : A → result B) (l : list A) (ys : list B) (y : B) :
  mapM_r f l = Ok ys → y ∈ ys → ∃ x, x ∈ l ∧ f x = Ok y.
Proof.
  revert ys. induction l as [|x l IH]; intros ys; simpl.
  - intros [= <-] Hy. by apply elem_of_nil in Hy.
  - intros (y0 & Hy0 & (ys0 & Hys0 & [= <-])%rbind_ok)%rbind_ok Hy.
    apply elem_of_cons in Hy as [->|Hy].
    + exists x. split; [by left|done].
    + destruct (IH ys0 Hys0 Hy) as (x' & Hx' & Hfx'). exists x'. split; [by right|done].
Qed.

Lemma dict_lookup_inv (items : list (string * Q)) (k : string) (v : Q) :
  dict items !! k = Some v → (k, v) ∈ items.
Proof.
  induction items as [|[k' v'] items IH] using rev_ind.
  - unfold dict. simpl. by rewrite lookup_empty.
  - rewrite dict_snoc. destruct (decide (k' = k)) as [->|Hne].
    + rewrite lookup_insert_eq. intros [= ->].
      apply elem_of_app. right. by apply list_elem_of_singleton.
    + rewrite lookup_insert_ne by done. intros Hk.
      apply elem_of_app. left. by apply IH.
Qed.

(** X13. When the metric only returns scores between 0 and 1, every value
    of the returned mapping lies between 0 and 1. *)
Theorem evaluate_values_in_unit_interval
    `{Numpy} `{Estimator} `{RandomState} `{Metric}
    (self : task) (X : list (list Q)) (y : list (list Z)) (n_shuffle : Z)
    (g g' : rng) (d : gmap string Q) :
  (∀ T P r, f1_score T P = Ok r → unit_interval r) →
  _evaluate self X y n_shuffle g = Ok (d, g') →
  ∀ k v, d !! k = Some v → unit_interval v.
Proof.
  intros Hmetric. unfold _evaluate.
  intros ([shuffles g1] & _ & (ar & Hloop & (d0 & Hsum & [= <- <-])%rbind_ok)%rbind_ok)%rbind_ok.
  assert (Forall (λ kv, Forall unit_interval kv.2) ar) as Har.
  { unfold score_loop in Hloop.
    apply (foldM_invariant (λ ar, Forall (λ kv : float * list Q, Forall unit_interval kv.2) ar)
             _ _ _ _ (Forall_nil_2 _)) in Hloop; [done|].
    intros ar1 tp ar2 _ Har1.
    apply foldM_invariant; [done|].
    intros ar3 shuf ar4 _ Har3 (r & Hr & [= <-])%rbind_ok.
    apply results_append_unit_interval; [done|].
    unfold evaluate_split in Hr. apply rbind_ok in Hr as ([s preds] & _ & Hscore).
    by eapply Hmetric. }
  unfold summary in Hsum. apply rbind_ok in Hsum as (items & Hitems & [= <-]).
  intros k v Hk. apply dict_lookup_inv in Hk.
  destruct (mapM_r_ok_inv _ _ _ _ Hitems Hk) as (tp & _ & Htp).
  apply rbind_ok in Htp as (m & Hm & [= _ <-]).
  unfold mean in Hm.
  destruct (results_get ar tp) as [|r rs] eqn:Hget; [done|].
  simpl in Hm. injection Hm as <-.
  apply (arithmetic_mean_unit_interval (r :: rs)); [done|].
  rewrite <- Hget. by apply results_get_unit_interval.
Qed.

Lemma zip_with_Forall_all {A B C} (h : A → B → C) (R : C → Prop)
    (l : list A) (k : list B) :
  (∀ a b, R (h a b)) → Forall R (zip_with h l k).
Proof.
  intros Hh. revert k. induction l as [|a l IH]; intros [|b k]; simpl;
    constructor; auto.
Qed.

Lemma sum_nonneg (l : list Z) : Forall (λ v, 0 ≤ v) l → 0 ≤ foldr Z.add 0 l.
Proof. induction 1; simpl; lia. Qed.

Lemma count_cells_nonneg (f : Z → Z → bool) (T P : list (list Z)) :
  0 ≤ count_cells f T P.
Proof.
  unfold count_cells. apply sum_nonneg, zip_with_Forall_all. intros t p.
  apply sum_nonneg, zip_with_Forall_all. intros a b. by destruct (f a b).
Qed.

Lemma micro_f1_score_unit_interval (T P : list (list Z)) (r : Q) :
  micro_f1_score T P = Ok r → unit_interval r.
Proof.
  unfold micro_f1_score. destruct (same_shape T P); simpl; [|done].
  set (tp := count_cells _ T P).
  set (fp := count_cells (λ a b, (a =? 0) && negb (b =? 0)) T P).
  set (fn := count_cells (λ a b, negb (a =? 0) && (b =? 0)) T P).
  assert (0 ≤ tp) by apply count_cells_nonneg.
  assert (0 ≤ fp) by apply count_cells_nonneg.
  assert (0 ≤ fn) by apply count_cells_nonneg.
  destruct (Z.eqb_spec (2 * tp + fp + fn) 0) as [|Hne].
  - intros [= <-]. by split.
  - intros [= <-]. unfold unit_interval. rewrite Qred_correct.
    apply Qdiv_unit_interval.
    + apply inject_Z_pos_lt. lia.
    + rewrite <- (Zle_Qle 0). lia.
    + rewrite <- Zle_Qle. lia.
Qed.

Lemma evaluate_values_in_unit_interval_witness :
  (∀ T P r, @f1_score micro_f1 T P = Ok r → unit_interval r) ∧
  @_evaluate stable_numpy linear_estimator rotating_state micro_f1
     separable_task separable_features separable_labels 2 7
    = Ok (separable_report.1, separable_report.2) ∧
  ∀ k v, separable_report.1 !! k = Some v → unit_interval v.
Proof.
  assert (@_evaluate stable_numpy linear_estimator rotating_state micro_f1
            separable_task separable_features separable_labels 2 7
          = Ok (separable_report.1, separable_report.2)) as Hrun
    by (by vm_compute).
  split; [exact micro_f1_score_unit_interval|]. split; [exact Hrun|].
  apply (@evaluate_values_in_unit_interval stable_numpy linear_estimator
           rotating_state micro_f1 separable_task separable_features
           separable_labels 2 7 separable_report.2 separable_report.1
           micro_f1_score_unit_interval Hrun).
Defined.

(** ** More on the training size *)

(** The same product, keeping the rounded mantissa [qv] in sight: the
    result is [qv * 2^j] over [2^(-ef)], and [qv] is the truncated quotient
    of the exact product by [2^j], or one more. *)
Lemma training_size_value_mantissa (F : positive) (ef : Z) (n : positive) :
  Z.pos (digits2_pos F) = 53 → -56 ≤ ef ≤ -53 → Z.pos n < 2 ^ 48 →
  ∃ qv j, training_size (S754_finite false F ef) (Pos.to_nat n)
            = Ok (qv * 2 ^ j / 2 ^ (- ef)) ∧
          0 ≤ j ∧ 2 ^ j < 2 * Z.pos n ∧
          Z.pos F * Z.pos n / 2 ^ j ≤ qv ∧ qv ≤ Z.pos F * Z.pos n / 2 ^ j + 1.
Proof.
  intros HF Hef Hn.
  pose proof (digits2_pos_bounds n) as [Hnl Hnu].
  pose proof (digits2_pos_bounds F) as [HFl HFu]. rewrite HF in HFl, HFu.
  set (d := Z.pos (digits2_pos n)) in *.
  assert (1 ≤ d ≤ 48) as Hd.
  { split; [unfold d; lia|].
    assert (d - 1 < 48); [|lia]. apply pow2_lt_inv; lia. }
  set (k := Z.to_pos (53 - d)).
  assert (Z.pos k = 53 - d) as Hk by (unfold k; rewrite Z2Pos.id; lia).
  unfold training_size, float_mul_int. rewrite positive_nat_Z.
  rewrite (float_of_int_pos n k) by (fold d; lia).
  cbn [mbind result_bind rbind]. unfold SFmul. cbn [xorb].
  set (N := Pos.iter xO n k).
  assert (Z.pos N = Z.pos n * 2 ^ Z.pos k) as HN by apply pos_iter_xO.
  set (M := (F * N)%positive).
  assert (Z.pos M = Z.pos F * Z.pos n * 2 ^ Z.pos k) as HM
    by (unfold M; rewrite Pos2Z.inj_mul, HN; lia).
  pose proof (digits2_pos_bounds M) as [HMl HMu].
  set (D := Z.pos (digits2_pos M)) in *.
  assert (0 < 2 ^ Z.pos k) as Hpk by (apply pow2_pos; lia).
  assert (2 ^ (d - 1) * 2 ^ Z.pos k = 2 ^ 52) as Hp52
    by (rewrite <- Z.pow_add_r by lia; f_equal; lia).
  assert (2 ^ d * 2 ^ Z.pos k = 2 ^ 53) as Hp53
    by (rewrite <- Z.pow_add_r by lia; f_equal; lia).
  assert (2 ^ 104 ≤ Z.pos M < 2 ^ 106) as HMr.
  { rewrite HM. change (2 ^ 104) with (2 ^ 52 * 2 ^ 52).
    change (2 ^ 106) with (2 ^ 53 * 2 ^ 53).
    rewrite <- Z.mul_assoc. split.
    - apply Z.mul_le_mono_nonneg; [done|done|done|]. rewrite <- Hp52.
      apply Z.mul_le_mono_nonneg_r; lia.
    - apply Z.mul_lt_mono_nonneg; [lia|lia| |]; [nia|]. rewrite <- Hp53.
      apply Z.mul_lt_mono_pos_r; lia. }
  assert (105 ≤ D ≤ 106) as HD.
  { split.
    - assert (104 < D); [|lia]. apply pow2_lt_inv; [unfold D; lia|]. lia.
    - assert (D - 1 < 106); [|lia]. apply pow2_lt_inv; lia. }
  set (s := Z.to_pos (D - 53)).
  assert (Z.pos s = D - 53) as Hs by (unfold s; rewrite Z2Pos.id; lia).
  destruct (binary_round_aux_shift M (ef + - Z.pos k) s)
    as (m' & e' & q & Heq & Hq & He'); [fold D; lia|lia|lia|].
  rewrite Heq. cbn [int_of_float cond_Zopp].
  set (j := D + d - 106).
  assert (0 ≤ j) as Hj by (unfold j; lia).
  assert (0 < 2 ^ j) as Hpj by (by apply pow2_pos).
  exists q, j.
  assert (2 ^ Z.pos s = 2 ^ j * 2 ^ Z.pos k) as Hsplit
    by (rewrite <- Z.pow_add_r by lia; f_equal; lia).
  assert (Z.pos M / 2 ^ Z.pos s = Z.pos F * Z.pos n / 2 ^ j) as Hq0.
  { rewrite HM, Hsplit. apply Z.div_mul_cancel_r; lia. }
  rewrite Hq0 in Hq.
  pose proof (Z.mul_div_le (Z.pos F * Z.pos n) (2 ^ j) Hpj) as Hlow.
  pose proof (Z.mul_succ_div_gt (Z.pos F * Z.pos n) (2 ^ j) Hpj) as Hupp.
  split_and!.
  - f_equal. destruct (Z.leb_spec 0 e') as [Hpos|Hneg]; [lia|].
    destruct He' as [[-> Hm']|[-> Hm']].
    + rewrite Hm'.
      replace (2 ^ (- ef)) with (2 ^ (- (ef + - Z.pos k + Z.pos s)) * 2 ^ j)
        by (rewrite <- Z.pow_add_r by lia; f_equal; lia).
      symmetry. apply Z.div_mul_cancel_r; [|lia].
      apply Z.neq_sym, Z.lt_neq, pow2_pos. lia.
    + rewrite <- Hm'.
      replace (2 ^ (- ef)) with (2 ^ (- (ef + - Z.pos k + Z.pos s + 1)) * (2 * 2 ^ j)).
      * replace (2 * Z.pos m' * 2 ^ j) with (Z.pos m' * (2 * 2 ^ j)) by lia.
        symmetry. apply Z.div_mul_cancel_r; [|lia].
        apply Z.neq_sym, Z.lt_neq, pow2_pos. lia.
      * rewrite <- Z.pow_succ_r, <- Z.pow_add_r by lia. f_equal. lia.
  - done.
  - assert (2 ^ (D - 1) = 2 ^ j * 2 ^ 52 * 2 ^ Z.pos k) as HDsplit.
    { rewrite <- !Z.pow_add_r by lia. f_equal. lia. }
    rewrite HDsplit, HM in HMl.
    assert (2 ^ j * 2 ^ 52 ≤ Z.pos F * Z.pos n) as Hle
      by (apply (Z.mul_le_mono_pos_r _ _ (2 ^ Z.pos k)); lia).
    nia.
  - destruct Hq as [-> | ->]; lia.
  - destruct Hq as [-> | ->]; lia.
Qed.

Lemma upward_literal_facts (q : Q) :
  q ∈ [1 # 10; 5 # 10; 9 # 10]%Q →
  ∃ (F : positive) (ef c : Z),
    float_of_literal q = S754_finite false F ef ∧
    Z.pos (digits2_pos F) = 53 ∧ -56 ≤ ef ≤ -53 ∧
    Qden q = 10%positive ∧ 1 ≤ Qnum q ≤ 9 ∧
    10 * Z.pos F = Qnum q * 2 ^ (- ef) + c ∧ 0 ≤ c ≤ 5.
Proof.
  intros Hq.
  repeat (apply elem_of_cons in Hq as [->|Hq]);
    [..|by apply elem_of_nil in Hq].
  - exists 7205759403792794%positive, (-56), 4. by vm_compute.
  - exists 4503599627370496%positive, (-53), 0. by vm_compute.
  - exists 8106479329266893%positive, (-53), 2. by vm_compute.
Qed.

Lemma training_size_exact_core (F : positive) (ef c a : Z) (n : nat) :
  Z.pos (digits2_pos F) = 53 → -56 ≤ ef ≤ -53 → 1 ≤ a ≤ 9 →
  10 * Z.pos F = a * 2 ^ (- ef) + c → -5 ≤ c ≤ 5 →
  Z.of_nat n < 2 ^ 48 →
  (a * Z.of_nat n) mod 10 ≠ 0 ∨ 0 ≤ c →
  training_size (S754_finite false F ef) n = Ok (a * Z.of_nat n / 10).
Proof.
  intros HF Hef Ha Hten Hc Hn Hcase.
  destruct n as [|n'].
  { rewrite Z.mul_0_r. by destruct Hef as [? ?]. }
  change (Z.of_nat (S n')) with (Z.pos (Pos.of_succ_nat n')) in *.
  rewrite <- (SuccNat2Pos.id_succ n').
  set (p := Pos.of_succ_nat n') in *.
  destruct (training_size_value_mantissa F ef p HF Hef Hn)
    as (qv & j & -> & Hj & Hpj & Hql & Hqu).
  f_equal.
  pose proof (digits2_pos_bounds F) as [HFl _]. rewrite HF in HFl.
  change (2 ^ (53 - 1)) with 4503599627370496 in HFl.
  assert (2 ^ 53 ≤ 2 ^ (- ef)) as HW by (apply Z.pow_le_mono_r; lia).
  assert (j < 49) as Hj49.
  { apply pow2_lt_inv; [lia|].
    change (2 ^ 49) with (2 * 2 ^ 48). lia. }
  assert (2 ^ (- ef) = 2 ^ (- ef - j) * 2 ^ j) as HWsplit
    by (rewrite <- Z.pow_add_r by lia; f_equal; lia).
  assert (0 < 2 ^ (- ef - j)) as HWj by (apply pow2_pos; lia).
  assert (0 < 2 ^ j) as Hpj0 by (by apply pow2_pos).
  change (2 ^ 53) with 9007199254740992 in HW.
  change (2 ^ 48) with 281474976710656 in Hn.
  pose proof (Z.mul_div_le (Z.pos F * Z.pos p) (2 ^ j) Hpj0) as Hlow.
  pose proof (Z.mul_succ_div_gt (Z.pos F * Z.pos p) (2 ^ j) Hpj0) as Hupp.
  set (W := 2 ^ (- ef)) in *. set (P := 2 ^ j) in *.
  set (Wj := 2 ^ (- ef - j)) in *.
  set (Fn := Z.pos F * Z.pos p) in *. set (q0 := Fn / P) in *.
  set (an := a * Z.pos p) in *.
  pose proof (Z.div_mod an 10 ltac:(lia)) as Hdm.
  pose proof (Z.mod_pos_bound an 10 ltac:(lia)) as Hr.
  set (m := an / 10) in *. set (r := an mod 10) in *.
  assert (10 * Fn = an * W + c * Z.pos p) as HFn by (unfold Fn, an; nia).
  assert (0 ≤ an) as Han0 by (unfold an; nia).
  assert (0 ≤ m) as Hm0 by (unfold m; apply Z.div_pos; lia).
  assert (qv * P < (m + 1) * W) as Hlt by nia.
  assert (m * W ≤ qv * P) as Hge.
  { destruct Hcase as [Hr0|Hc0].
    - assert (1 ≤ r) by lia. nia.
    - assert (m * Wj ≤ q0) as Hq0.
      { unfold q0. apply Z.div_le_lower_bound; [done|].
        replace (P * (m * Wj)) with (m * W) by (rewrite HWsplit; lia). nia. }
      rewrite HWsplit. nia. }
  symmetry. apply Z.div_unique with (r := qv * P - m * W); lia.
Qed.

(** X15. The training size differs from the exact [floor(f * num_nodes)]
    only where the rounding of the float product can cross an integer: it
    is exact whenever [f * num_nodes] is not a whole number, and always
    for the fractions 0.1, 0.5 and 0.9, whose doubles are not below the
    fractions they stand for (fewer than 2^48 nodes). *)
Theorem training_size_exact_cases (q : Q) (n : nat) :
  q ∈ training_percent_literals → Z.of_nat n < 2 ^ 48 →
  ((Qnum q * Z.of_nat n) mod 10 ≠ 0 →
   training_size (float_of_literal q) n = Ok (exact_floor q n)) ∧
  (q ∈ [1 # 10; 5 # 10; 9 # 10]%Q →
   training_size (float_of_literal q) n = Ok (exact_floor q n)).
Proof.
  intros Hq Hn. split.
  - intros Hr.
    destruct (training_percent_literal_facts q Hq)
      as (F & ef & c & -> & HF & Hef & Hden & Hnum & Hten & Hc).
    rewrite (exact_floor_tenths q n Hden).
    apply (training_size_exact_core F ef c); auto.
  - intros Hup.
    destruct (upward_literal_facts q Hup)
      as (F & ef & c & -> & HF & Hef & Hden & Hnum & Hten & Hc).
    rewrite (exact_floor_tenths q n Hden).
    apply (training_size_exact_core F ef c); auto; lia.
Qed.

Lemma training_size_exact_cases_witness :
  (9 # 10)%Q ∈ training_percent_literals ∧ Z.of_nat 91 < 2 ^ 48 ∧
  (Qnum (9 # 10) * Z.of_nat 91) mod 10 ≠ 0 ∧
  (9 # 10)%Q ∈ [1 # 10; 5 # 10; 9 # 10]%Q ∧
  training_size (float_of_literal (9 # 10)) 91 = Ok (exact_floor (9 # 10) 91).
Proof.
  assert ((9 # 10)%Q ∈ training_percent_literals) as Hq
    by (unfold training_percent_literals; do 4 right; left).
  assert (Z.of_nat 91 < 2 ^ 48) as Hn by (by vm_compute).
  assert ((Qnum (9 # 10) * Z.of_nat 91) mod 10 ≠ 0) as Hr by (by vm_compute).
  split; [exact Hq|]. split; [exact Hn|]. split; [exact Hr|].
  split; [do 2 right; left|].
  exact (proj1 (training_size_exact_cases (9 # 10) 91 Hq Hn) Hr).
Defined.

(** X14. With at least one node (and fewer than 2^48) the test split is
    never empty, for any of the five fractions.  The train split is empty
    when [f * num_nodes] is below 1, so for fraction 0.1 on fewer than ten
    nodes, and it is not empty once [f * num_nodes] reaches 2. *)
Theorem split_sizes_by_node_count (q : Q) (n : nat)
    (shuf : list (list Q) * list (list Z)) :
  q ∈ training_percent_literals → (1 ≤ n)%nat → Z.of_nat n < 2 ^ 48 →
  length shuf.1 = n →
  ∃ t, training_size (float_of_literal q) n = Ok t ∧
       X_test (split_at t shuf) ≠ [] ∧
       (Qnum q * Z.of_nat n < 10 → X_train (split_at t shuf) = []) ∧
       (20 ≤ Qnum q * Z.of_nat n → X_train (split_at t shuf) ≠ []).
Proof.
  intros Hq Hn1 Hn HX.
  destruct (training_size_near_exact_floor q n Hq Hn) as (t & Ht & Hnear & Hrange).
  destruct (training_percent_literal_facts q Hq)
    as (F & ef & c & _ & _ & _ & Hden & Hnum & _ & _).
  rewrite (exact_floor_tenths q n Hden) in Hnear.
  set (a := Qnum q * Z.of_nat n) in *.
  assert (a / 10 < Z.of_nat n) as Hm
    by (apply Z.div_lt_upper_bound; unfold a; nia).
  exists t. split; [done|].
  assert (length (X_test (split_at t shuf)) = (n - Z.to_nat t)%nat) as Htest
    by (simpl; by rewrite slice_from_length, HX, slice_bound_nonneg).
  assert (length (X_train (split_at t shuf)) = Z.to_nat t) as Htrain
    by (simpl; by rewrite slice_to_length, HX, slice_bound_nonneg).
  split_and!.
  - intros Hnil. rewrite Hnil in Htest. simpl in Htest. lia.
  - intros Hsmall. apply length_zero_iff_nil. rewrite Htrain.
    assert (a / 10 = 0) by (apply Z.div_small; unfold a; nia). lia.
  - intros Hbig Hnil. rewrite Hnil in Htrain. simpl in Htrain.
    assert (2 ≤ a / 10) by (apply Z.div_le_lower_bound; lia). lia.
Qed.

Lemma split_sizes_by_node_count_witness :
  (1 # 10)%Q ∈ training_percent_literals ∧ (1 ≤ 4)%nat ∧ Z.of_nat 4 < 2 ^ 48 ∧
  length (sparse_features, sparse_labels).1 = 4%nat ∧
  ∃ t, training_size (float_of_literal (1 # 10)) 4 = Ok t ∧
       X_test (split_at t (sparse_features, sparse_labels)) ≠ [] ∧
       (Qnum (1 # 10) * Z.of_nat 4 < 10 →
        X_train (split_at t (sparse_features, sparse_labels)) = []) ∧
       (20 ≤ Qnum (1 # 10) * Z.of_nat 4 →
        X_train (split_at t (sparse_features, sparse_labels)) ≠ []).
Proof.
  assert ((1 # 10)%Q ∈ training_percent_literals) as Hq
    by (unfold training_percent_literals; left).
  assert (Z.of_nat 4 < 2 ^ 48) as Hn by (by vm_compute).
  split; [exact Hq|]. split; [lia|]. split; [exact Hn|]. split; [reflexivity|].
  apply (split_sizes_by_node_count (1 # 10) 4 (sparse_features, sparse_labels)
           Hq ltac:(lia) Hn eq_refl).
Defined.

(** ** The score table *)

Lemma SFeqb_finite (s1 s2 : bool) (m1 m2 : positive) (e1 e2 : Z) :
  SFeqb (S754_finite s1 m1 e1) (S754_finite s2 m2 e2) = true ↔
  s1 = s2 ∧ m1 = m2 ∧ e1 = e2.
Proof.
  unfold SFeqb, SFcompare. fold (Pos.compare m1 m2).
  destruct s1, s2; try (split; [done|by intros (? & _)]);
    destruct (Z.compare_spec e1 e2) as [->| |]; try (split; [done|intros (_ & _ & ?); lia]);
    destruct (Pos.compare_spec m1 m2) as [->| |]; simpl;
    try (split; [done|intros (_ & ? & _); lia]); by split.
Qed.

Lemma SFeqb_trans_l (k a b : float) :
  SFeqb k a = true → SFeqb k b = true → SFeqb a b = true.
Proof.
  destruct k as [sk|sk| |sk mk ek], a as [sa|sa| |sa ma ea], b as [sb|sb| |sb mb eb];
    try done;
    try (destruct sk, sa, sb; done);
    try (destruct sk; done); try (destruct sa; done); try (destruct sb; done).
  rewrite !SFeqb_finite. intros (-> & -> & ->) (-> & -> & ->). done.
Qed.

(** X16. The score table behaves as a dictionary of lists: after a score
    is appended under a key that is a number (equal to itself), reading
    that key gives what was there before followed by the new score, and
    reading any key different from it gives what was there before. *)
Theorem results_get_after_append (d : list (float * list Q)) (key key' : float) (v : Q) :
  SFeqb key key = true →
  results_get (results_append d key v) key = results_get d key ++ [v] ∧
  (SFeqb key key' = false →
   results_get (results_append d key v) key' = results_get d key').
Proof.
  intros Hkey. split.
  - induction d as [|[k vs] d IH]; simpl.
    + by rewrite Hkey.
    + destruct (SFeqb k key) eqn:Hk; simpl; by rewrite Hk.
  - intros Hne. induction d as [|[k vs] d IH]; simpl.
    + by rewrite Hne.
    + destruct (SFeqb k key) eqn:Hk; simpl.
      * destruct (SFeqb k key') eqn:Hk'; [|done].
        rewrite (SFeqb_trans_l k key key') in Hne; done.
      * by destruct (SFeqb k key').
Qed.

Lemma results_get_after_append_witness :
  SFeqb (float_of_literal (3 # 10)) (float_of_literal (3 # 10)) = true ∧
  SFeqb (float_of_literal (3 # 10)) (float_of_literal (1 # 10)) = false ∧
  results_get (results_append [(float_of_literal (1 # 10), [1 # 2]%Q)]
                 (float_of_literal (3 # 10)) (1 # 4))
              (float_of_literal (3 # 10))
  = results_get [(float_of_literal (1 # 10), [1 # 2]%Q)] (float_of_literal (3 # 10))
    ++ [(1 # 4)%Q] ∧
  results_get (results_append [(float_of_literal (1 # 10), [1 # 2]%Q)]
                 (float_of_literal (3 # 10)) (1 # 4))
              (float_of_literal (1 # 10))
  = results_get [(float_of_literal (1 # 10), [1 # 2]%Q)] (float_of_literal (1 # 10)).
Proof.
  assert (SFeqb (float_of_literal (3 # 10)) (float_of_literal (3 # 10)) = true)
    as Hkey by (by vm_compute).
  assert (SFeqb (float_of_literal (3 # 10)) (float_of_literal (1 # 10)) = false)
    as Hne by (by vm_compute).
  split; [exact Hkey|]. split; [exact Hne|].
  destruct (results_get_after_append [(float_of_literal (1 # 10), [1 # 2]%Q)]
              (float_of_literal (3 # 10)) (float_of_literal (1 # 10)) (1 # 4) Hkey)
    as [Hsame Hother].
  split; [exact Hsame|exact (Hother Hne)].
Defined.

(** ** From the constructor to the shuffles *)

(** X17. For a task built from a single-label dataset, features and labels
    always agree in their number of rows once the alignment has returned,
    also when some node has no edge: the feature matrix is allocated with
    [num_nodes] rows.  The shuffle loop of [train] therefore cannot fail. *)
Theorem train_shapes_agree `{RandomStateSpec} (y : list Z) (n_classes : nat)
    (edges : list (Z * Z)) (hidden num_shuf : Z) (t : task) (g : rng)
    (embeddings F : list (list Q)) :
  Forall (λ c, 0 ≤ c < Z.of_nat n_classes) y →
  init (SingleLabel y n_classes edges) hidden num_shuf = Ok t →
  align_embeddings (num_nodes t) (hidden_size t)
    (graph_nodes (edge_index t)) embeddings = Ok F →
  length F = length (label_matrix t) ∧
  ∃ shuffles g', make_shuffles F (label_matrix t) (num_shuffle t) g
                 = Ok (shuffles, g') ∧
                 length shuffles = Z.to_nat num_shuf.
Proof.
  intros Hy. simpl. unfold one_hot.
  pose proof (one_hot_loop n_classes y Hy []) as Hloop. simpl in Hloop.
  rewrite Hloop. simpl. intros [= <-]. simpl. intros Halign.
  assert (length F = length y) as HF.
  { unfold align_embeddings in Halign.
    apply (foldM_invariant
             (λ F, length F = length y ∧
                   Forall (λ row, length row = Z.to_nat hidden) F))
      in Halign as [? _]; [done| |].
    - unfold zeros. rewrite length_replicate. split; [done|].
      apply Forall_replicate. by rewrite length_replicate.
    - intros F1 vn F2 _. apply align_step_shape. }
  rewrite length_fmap. split; [done|].
  unfold make_shuffles.
  destruct (make_shuffles_loop F (one_hot_row n_classes <$> y))
    with (l := seq 0 (Z.to_nat num_shuf)) (acc := @nil (list (list Q) * list (list Z)))
         (g := g) as (shuffles & g' & Heq & Hn & _);
    [by rewrite length_fmap|done|].
  exists shuffles, g'. split; [done|]. by rewrite Hn, length_seq.
Qed.

Lemma train_shapes_agree_witness :
  Forall (λ c, 0 ≤ c < Z.of_nat 3) [0; 2; 1; 2; 1] ∧
  init (SingleLabel [0; 2; 1; 2; 1] 3 [(3, 1); (1, 0); (3, 0)]) 2 2
    = Ok five_node_task ∧
  align_embeddings (num_nodes five_node_task) (hidden_size five_node_task)
    (graph_nodes (edge_index five_node_task)) [[31; 32]; [7]; [1; 2]]%Q
    = Ok [[1; 2]; [7; 7]; [0; 0]; [31; 32]; [0; 0]]%Q ∧
  length [[1; 2]; [7; 7]; [0; 0]; [31; 32]; [0; 0]]%Q
    = length (label_matrix five_node_task) ∧
  ∃ shuffles g',
    @make_shuffles rotating_state [[1; 2]; [7; 7]; [0; 0]; [31; 32]; [0; 0]]%Q
      (label_matrix five_node_task) (num_shuffle five_node_task) 7
      = Ok (shuffles, g') ∧
    length shuffles = Z.to_nat 2.
Proof.
  assert (Forall (λ c, 0 ≤ c < Z.of_nat 3) [0; 2; 1; 2; 1]) as Hy
    by (repeat constructor; simpl; lia).
  split; [exact Hy|]. split; [reflexivity|]. split; [reflexivity|].
  apply (@train_shapes_agree rotating_state rotating_state_spec
           [0; 2; 1; 2; 1] 3 [(3, 1); (1, 0); (3, 0)] 2 2 five_node_task 7
           [[31; 32]; [7]; [1; 2]]%Q
           [[1; 2]; [7; 7]; [0; 0]; [31; 32]; [0; 0]]%Q Hy eq_refl eq_refl).
Defined.
